(** * Edge drawing of the ReactOS user32 library

    A shallow embedding of [IntDrawRectEdge] and [IntDrawDiagEdge] from
    [dll/win32/user32/windows/draw.c], the two functions behind [DrawEdge],
    together with the colour tables they index, and the properties of the
    border renderer that can be established from them.  Two more functions
    of the same file follow: [UITOOLS_MakeSquareRect] and [FrameRect].

    Conventions of the embedding:
    - [UINT], [LONG] and [int] values are integers of [Z]; every [LONG]/[int]
      addition and subtraction of the source is written with [+!] and [-!],
      which wrap around at 32 bits;
    - the bit tests of the source ([a & b], [a | b]) are [Z.land] and [Z.lor];
    - the device context is an explicit state ([DC]): the selected pen and
      brush, the DC pen and brush colours, the current position, and the list
      of primitives painted so far;
    - reading a table outside its bounds has no result ([None]). *)

From Stdlib Require Import ZArith List Bool Lia.
Import ListNotations.
Local Open Scope Z_scope.

(** ** Machine integers *)

Definition UINT := Z.
Definition LONG := Z.
Definition BOOL := bool.

(** Two's complement representative of an integer in the 32-bit range. *)
Definition LONG_wrap (z : Z) : LONG := (z + 2 ^ 31) mod 2 ^ 32 - 2 ^ 31.

Definition ladd (a b : LONG) : LONG := LONG_wrap (a + b).
Definition lsub (a b : LONG) : LONG := LONG_wrap (a - b).

Infix "+!" := ladd (at level 50, left associativity).
Infix "-!" := lsub (at level 50, left associativity).
Infix ".&" := Z.land (at level 40, left associativity).
Infix ".|" := Z.lor (at level 45, left associativity).

(** Truth value of a C integer used as a condition. *)
Definition nz (z : Z) : bool := negb (z =? 0).

(** ** Constants of the Win32 headers

    [draw.c] takes the following names from [<user32.h>], which is not among
    the sources at hand; their values are the ones fixed by the Win32
    interface.  The source agrees with them where it can be compared: the
    tables have sixteen entries and are read at [uType & (BDR_INNER|BDR_OUTER)];
    the pen selection tables in the comment above [IntDrawRectEdge] lay
    [uType] out as four bits, give an outer colour (LTO, RBO) to the rows
    0001 and 0010 and an inner colour (LTI, RBI) only to the rows that also
    have one of the bits 0100 and 1000, and number the colours 15, 16, 20, 21
    and 22; the labels of the two [switch] statements of [IntDrawDiagEdge]
    compose the side flags as below. *)

Definition BDR_RAISEDOUTER : UINT := 1.
Definition BDR_SUNKENOUTER : UINT := 2.
Definition BDR_RAISEDINNER : UINT := 4.
Definition BDR_SUNKENINNER : UINT := 8.
Definition BDR_OUTER : UINT := 3.
Definition BDR_INNER : UINT := 12.

Definition EDGE_RAISED : UINT := BDR_RAISEDOUTER .| BDR_RAISEDINNER.
Definition EDGE_SUNKEN : UINT := BDR_SUNKENOUTER .| BDR_SUNKENINNER.
Definition EDGE_ETCHED : UINT := BDR_SUNKENOUTER .| BDR_RAISEDINNER.
Definition EDGE_BUMP : UINT := BDR_RAISEDOUTER .| BDR_SUNKENINNER.

Definition BF_LEFT : UINT := 1.
Definition BF_TOP : UINT := 2.
Definition BF_RIGHT : UINT := 4.
Definition BF_BOTTOM : UINT := 8.
Definition BF_TOPLEFT : UINT := BF_TOP .| BF_LEFT.
Definition BF_TOPRIGHT : UINT := BF_TOP .| BF_RIGHT.
Definition BF_BOTTOMLEFT : UINT := BF_BOTTOM .| BF_LEFT.
Definition BF_BOTTOMRIGHT : UINT := BF_BOTTOM .| BF_RIGHT.
Definition BF_RECT : UINT := BF_LEFT .| BF_TOP .| BF_RIGHT .| BF_BOTTOM.
Definition BF_DIAGONAL : UINT := 16.
Definition BF_DIAGONAL_ENDTOPRIGHT : UINT := BF_DIAGONAL .| BF_TOP .| BF_RIGHT.
Definition BF_DIAGONAL_ENDTOPLEFT : UINT := BF_DIAGONAL .| BF_TOP .| BF_LEFT.
Definition BF_DIAGONAL_ENDBOTTOMLEFT : UINT := BF_DIAGONAL .| BF_BOTTOM .| BF_LEFT.
Definition BF_DIAGONAL_ENDBOTTOMRIGHT : UINT := BF_DIAGONAL .| BF_BOTTOM .| BF_RIGHT.
Definition BF_MIDDLE : UINT := 2048.
Definition BF_SOFT : UINT := 4096.
Definition BF_ADJUST : UINT := 8192.
Definition BF_FLAT : UINT := 16384.
Definition BF_MONO : UINT := 32768.

Definition COLOR_WINDOW : Z := 5.
Definition COLOR_WINDOWFRAME : Z := 6.
Definition COLOR_BTNFACE : Z := 15.
Definition COLOR_BTNSHADOW : Z := 16.
Definition COLOR_BTNHIGHLIGHT : Z := 20.
Definition COLOR_3DDKSHADOW : Z := 21.
Definition COLOR_3DLIGHT : Z := 22.

(** ** The colour tables *)

Definition LTInnerNormal : list Z := [
  -1;           -1;                 -1;                 -1;
  -1;           COLOR_BTNHIGHLIGHT; COLOR_BTNHIGHLIGHT; -1;
  -1;           COLOR_3DDKSHADOW;   COLOR_3DDKSHADOW;   -1;
  -1;           -1;                 -1;                 -1
].

Definition LTOuterNormal : list Z := [
  -1;                 COLOR_3DLIGHT;     COLOR_BTNSHADOW; -1;
  COLOR_BTNHIGHLIGHT; COLOR_3DLIGHT;     COLOR_BTNSHADOW; -1;
  COLOR_3DDKSHADOW;   COLOR_3DLIGHT;     COLOR_BTNSHADOW; -1;
  -1;                 COLOR_3DLIGHT;     COLOR_BTNSHADOW; -1
].

Definition RBInnerNormal : list Z := [
  -1;           -1;                -1;              -1;
  -1;           COLOR_BTNSHADOW;   COLOR_BTNSHADOW; -1;
  -1;           COLOR_3DLIGHT;     COLOR_3DLIGHT;   -1;
  -1;           -1;                -1;              -1
].

Definition RBOuterNormal : list Z := [
  -1;              COLOR_3DDKSHADOW;  COLOR_BTNHIGHLIGHT; -1;
  COLOR_BTNSHADOW; COLOR_3DDKSHADOW;  COLOR_BTNHIGHLIGHT; -1;
  COLOR_3DLIGHT;   COLOR_3DDKSHADOW;  COLOR_BTNHIGHLIGHT; -1;
  -1;              COLOR_3DDKSHADOW;  COLOR_BTNHIGHLIGHT; -1
].

Definition LTInnerSoft : list Z := [
  -1;                  -1;                -1;              -1;
  -1;                  COLOR_3DLIGHT;     COLOR_3DLIGHT;   -1;
  -1;                  COLOR_BTNSHADOW;   COLOR_BTNSHADOW; -1;
  -1;                  -1;                -1;              -1
].

Definition LTOuterSoft : list Z := [
  -1;              COLOR_BTNHIGHLIGHT; COLOR_3DDKSHADOW; -1;
  COLOR_3DLIGHT;   COLOR_BTNHIGHLIGHT; COLOR_3DDKSHADOW; -1;
  COLOR_BTNSHADOW; COLOR_BTNHIGHLIGHT; COLOR_3DDKSHADOW; -1;
  -1;              COLOR_BTNHIGHLIGHT; COLOR_3DDKSHADOW; -1
].

(** These are the same. *)
Definition RBInnerSoft : list Z := RBInnerNormal.
Definition RBOuterSoft : list Z := RBOuterNormal.

Definition LTRBOuterMono : list Z := [
  -1;           COLOR_WINDOWFRAME; COLOR_WINDOWFRAME; COLOR_WINDOWFRAME;
  COLOR_WINDOW; COLOR_WINDOWFRAME; COLOR_WINDOWFRAME; COLOR_WINDOWFRAME;
  COLOR_WINDOW; COLOR_WINDOWFRAME; COLOR_WINDOWFRAME; COLOR_WINDOWFRAME;
  COLOR_WINDOW; COLOR_WINDOWFRAME; COLOR_WINDOWFRAME; COLOR_WINDOWFRAME
].

Definition LTRBInnerMono : list Z := [
  -1; -1;           -1;           -1;
  -1; COLOR_WINDOW; COLOR_WINDOW; COLOR_WINDOW;
  -1; COLOR_WINDOW; COLOR_WINDOW; COLOR_WINDOW;
  -1; COLOR_WINDOW; COLOR_WINDOW; COLOR_WINDOW
].

Definition LTRBOuterFlat : list Z := [
  -1;                COLOR_BTNSHADOW; COLOR_BTNSHADOW; COLOR_BTNSHADOW;
  COLOR_BTNFACE;     COLOR_BTNSHADOW; COLOR_BTNSHADOW; COLOR_BTNSHADOW;
  COLOR_BTNFACE;     COLOR_BTNSHADOW; COLOR_BTNSHADOW; COLOR_BTNSHADOW;
  COLOR_BTNFACE;     COLOR_BTNSHADOW; COLOR_BTNSHADOW; COLOR_BTNSHADOW
].

Definition LTRBInnerFlat : list Z := [
  -1; -1;              -1;              -1;
  -1; COLOR_BTNFACE;     COLOR_BTNFACE;     COLOR_BTNFACE;
  -1; COLOR_BTNFACE;     COLOR_BTNFACE;     COLOR_BTNFACE;
  -1; COLOR_BTNFACE;     COLOR_BTNFACE;     COLOR_BTNFACE
].

(** [tbl[i]]: reading entry [i] of a table; no result outside the table. *)
Definition tbl_at (tbl : list Z) (i : Z) : option Z :=
  if i <? 0 then None else nth_error tbl (Z.to_nat i).

(** ** Geometry and the device context *)

Record POINT : Set := mkPOINT { x : LONG; y : LONG }.

Record RECT : Set := mkRECT { left : LONG; top : LONG; right : LONG; bottom : LONG }.

(** A system colour, as [GetSysColor(nIndex)] returns it: the embedding keeps
    the index the colour was asked for. *)
Inductive COLORREF : Set :=
| GetSysColor (nIndex : Z)
| RGB (v : Z).

Inductive HPEN : Set :=
| NULL_PEN
| DC_PEN
| PenHandle (h : Z).

Inductive HBRUSH : Set :=
| DC_BRUSH
| GetSysColorBrush (nIndex : Z)
| BrushHandle (h : Z).

(** What a call has painted: [LineTo] under the selected pen, [FillRect] with
    a brush, [Polygon] under the selected pen and brush.  The array handed
    to [Polygon] is [None] when the function never wrote to it. *)
Inductive PRIM : Set :=
| PLine (pen : HPEN) (color : COLORREF) (p0 p1 : POINT)
| PFillRect (rc : RECT) (hbr : HBRUSH)
| PPolygon (pen : HPEN) (pen_color : COLORREF) (hbr : HBRUSH) (brush_color : COLORREF)
           (Points : option (list POINT)).

Record DC : Set := mkDC {
  dc_pen : HPEN;
  dc_brush : HBRUSH;
  dc_pen_color : COLORREF;
  dc_brush_color : COLORREF;
  dc_pos : POINT;
  dc_out : list PRIM
}.

(** ** Calls on a device context

    A computation on a device context either has no result (a table was read
    out of bounds) or returns a value and the new context. *)

Definition GDI (A : Type) : Type := DC -> option (A * DC).

Definition ret {A} (a : A) : GDI A := fun hdc => Some (a, hdc).

Definition bind {A B} (m : GDI A) (k : A -> GDI B) : GDI B :=
  fun hdc => match m hdc with
             | Some (a, hdc') => k a hdc'
             | None => None
             end.

Definition when (c : bool) (m : GDI unit) : GDI unit :=
  if c then m else ret tt.

Notation "v <- m ;; k" := (bind m (fun v => k))
  (at level 61, m at next level, right associativity).
Notation "m ;;; k" := (bind m (fun _ => k))
  (at level 61, right associativity).

Definition SelectPen (h : HPEN) : GDI HPEN := fun hdc =>
  Some (dc_pen hdc,
        mkDC h (dc_brush hdc) (dc_pen_color hdc) (dc_brush_color hdc) (dc_pos hdc) (dc_out hdc)).

Definition SelectBrush (h : HBRUSH) : GDI HBRUSH := fun hdc =>
  Some (dc_brush hdc,
        mkDC (dc_pen hdc) h (dc_pen_color hdc) (dc_brush_color hdc) (dc_pos hdc) (dc_out hdc)).

Definition SetDCPenColor (c : COLORREF) : GDI unit := fun hdc =>
  Some (tt, mkDC (dc_pen hdc) (dc_brush hdc) c (dc_brush_color hdc) (dc_pos hdc) (dc_out hdc)).

Definition SetDCBrushColor (c : COLORREF) : GDI unit := fun hdc =>
  Some (tt, mkDC (dc_pen hdc) (dc_brush hdc) (dc_pen_color hdc) c (dc_pos hdc) (dc_out hdc)).

(** [MoveToEx] returns the position it replaces. *)
Definition MoveToEx (px py : LONG) : GDI POINT := fun hdc =>
  Some (dc_pos hdc,
        mkDC (dc_pen hdc) (dc_brush hdc) (dc_pen_color hdc) (dc_brush_color hdc)
             (mkPOINT px py) (dc_out hdc)).

Definition paint (p : PRIM) (hdc : DC) : list PRIM := dc_out hdc ++ [p].

Definition LineTo (px py : LONG) : GDI unit := fun hdc =>
  Some (tt, mkDC (dc_pen hdc) (dc_brush hdc) (dc_pen_color hdc) (dc_brush_color hdc)
                 (mkPOINT px py)
                 (paint (PLine (dc_pen hdc) (dc_pen_color hdc) (dc_pos hdc) (mkPOINT px py)) hdc)).

Definition FillRect (rc : RECT) (hbr : HBRUSH) : GDI unit := fun hdc =>
  Some (tt, mkDC (dc_pen hdc) (dc_brush hdc) (dc_pen_color hdc) (dc_brush_color hdc)
                 (dc_pos hdc) (paint (PFillRect rc hbr) hdc)).

Definition Polygon (Points : option (list POINT)) : GDI unit := fun hdc =>
  Some (tt, mkDC (dc_pen hdc) (dc_brush hdc) (dc_pen_color hdc) (dc_brush_color hdc)
                 (dc_pos hdc)
                 (paint (PPolygon (dc_pen hdc) (dc_pen_color hdc)
                                  (dc_brush hdc) (dc_brush_color hdc) Points) hdc)).

Definition lift {A} (o : option A) : GDI A :=
  fun hdc => match o with Some v => Some (v, hdc) | None => None end.

(** ** Validity, colours and width of an edge *)

(** The initialiser of [retval], the same expression in both functions:
<<
    BOOL retval = !(   ((uType & BDR_INNER) == BDR_INNER
                        || (uType & BDR_OUTER) == BDR_OUTER)
                       && !(uFlags & (BF_FLAT|BF_MONO)) );
>> *)
Definition edge_retval (uType uFlags : UINT) : BOOL :=
  negb (((uType .& BDR_INNER =? BDR_INNER) || (uType .& BDR_OUTER =? BDR_OUTER))
        && negb (nz (uFlags .& (BF_FLAT .| BF_MONO)))).

(** The four colour indices [IntDrawRectEdge] works with. *)
Record EDGECOLORS : Set := mkEDGECOLORS {
  LTInnerI : Z; LTOuterI : Z; RBInnerI : Z; RBOuterI : Z
}.

(** "Determine the colors of the edges" in [IntDrawRectEdge]. *)
Definition RectEdgeColors (uType uFlags : UINT) : option EDGECOLORS :=
  let i := uType .& (BDR_INNER .| BDR_OUTER) in
  if nz (uFlags .& BF_MONO) then
    match tbl_at LTRBInnerMono i, tbl_at LTRBOuterMono i with
    | Some InnerI, Some OuterI => Some (mkEDGECOLORS InnerI OuterI InnerI OuterI)
    | _, _ => None
    end
  else if nz (uFlags .& BF_FLAT) then
    match tbl_at LTRBInnerFlat i, tbl_at LTRBOuterFlat i with
    | Some InnerI, Some OuterI =>
        if negb (InnerI =? -1)
        then Some (mkEDGECOLORS COLOR_BTNFACE OuterI COLOR_BTNFACE OuterI)
        else Some (mkEDGECOLORS InnerI OuterI InnerI OuterI)
    | _, _ => None
    end
  else if nz (uFlags .& BF_SOFT) then
    match tbl_at LTInnerSoft i, tbl_at LTOuterSoft i,
          tbl_at RBInnerSoft i, tbl_at RBOuterSoft i with
    | Some lti, Some lto, Some rbi, Some rbo => Some (mkEDGECOLORS lti lto rbi rbo)
    | _, _, _, _ => None
    end
  else
    match tbl_at LTInnerNormal i, tbl_at LTOuterNormal i,
          tbl_at RBInnerNormal i, tbl_at RBOuterNormal i with
    | Some lti, Some lto, Some rbi, Some rbo => Some (mkEDGECOLORS lti lto rbi rbo)
    | _, _, _, _ => None
    end.

(** "Determine the colors of the edges" in [IntDrawDiagEdge]:
    the pair [(InnerI, OuterI)]. *)
Definition DiagEdgeColors (uType uFlags : UINT) : option (Z * Z) :=
  let i := uType .& (BDR_INNER .| BDR_OUTER) in
  let pick (Inner Outer : list Z) :=
    match tbl_at Inner i, tbl_at Outer i with
    | Some InnerI, Some OuterI => Some (InnerI, OuterI)
    | _, _ => None
    end in
  if nz (uFlags .& BF_MONO) then pick LTRBInnerMono LTRBOuterMono
  else if nz (uFlags .& BF_FLAT) then pick LTRBInnerFlat LTRBOuterFlat
  else if nz (uFlags .& BF_SOFT) then
    if nz (uFlags .& BF_BOTTOM) then pick RBInnerSoft RBOuterSoft
    else pick LTInnerSoft LTOuterSoft
  else
    if nz (uFlags .& BF_BOTTOM) then pick RBInnerNormal RBOuterNormal
    else pick LTInnerNormal LTOuterNormal.

(** The width of the edge:
<<
    int add = (LTRBInnerMono[uType & (BDR_INNER|BDR_OUTER)] != -1 ? 1 : 0)
            + (LTRBOuterMono[uType & (BDR_INNER|BDR_OUTER)] != -1 ? 1 : 0);
>> *)
Definition edge_add (uType : UINT) : option Z :=
  let i := uType .& (BDR_INNER .| BDR_OUTER) in
  match tbl_at LTRBInnerMono i, tbl_at LTRBOuterMono i with
  | Some InnerI, Some OuterI =>
      Some ((if negb (InnerI =? -1) then 1 else 0) +! (if negb (OuterI =? -1) then 1 else 0))
  | _, _ => None
  end.

(** A pen stays the stock [NULL_PEN] unless its colour index is not [-1]. *)
Definition edge_pen (I : Z) : HPEN := if negb (I =? -1) then DC_PEN else NULL_PEN.

(** "Adjust rectangle": each side named in [uFlags] moves inwards by [add]. *)
Definition adjust_rect (r : RECT) (uFlags : UINT) (add : Z) : RECT :=
  let l := if nz (uFlags .& BF_LEFT) then left r +! add else left r in
  let rg := if nz (uFlags .& BF_RIGHT) then right r -! add else right r in
  let t := if nz (uFlags .& BF_TOP) then top r +! add else top r in
  let b := if nz (uFlags .& BF_BOTTOM) then bottom r -! add else bottom r in
  mkRECT l t rg b.

(** ** [IntDrawRectEdge] *)

Definition IntDrawRectEdge (rc : RECT) (uType uFlags : UINT) : GDI (BOOL * RECT) :=
  let InnerRect := rc in
  let retval := edge_retval uType uFlags in
  (* Init some vars *)
  SavePen <- SelectPen NULL_PEN ;;
  (* Determine the colors of the edges *)
  c <- lift (RectEdgeColors uType uFlags) ;;
  let LBpenplus := if uFlags .& BF_BOTTOMLEFT =? BF_BOTTOMLEFT then 1 else 0 in
  let RTpenplus := if uFlags .& BF_TOPRIGHT =? BF_TOPRIGHT then 1 else 0 in
  let RBpenplus := if uFlags .& BF_BOTTOMRIGHT =? BF_BOTTOMRIGHT then 1 else 0 in
  let LTpenplus := if uFlags .& BF_TOPLEFT =? BF_TOPLEFT then 1 else 0 in
  let LTInnerPen := edge_pen (LTInnerI c) in
  let LTOuterPen := edge_pen (LTOuterI c) in
  let RBInnerPen := edge_pen (RBInnerI c) in
  let RBOuterPen := edge_pen (RBOuterI c) in
  when (nz (uFlags .& BF_MIDDLE) && retval)
       (FillRect InnerRect
          (GetSysColorBrush (if nz (uFlags .& BF_MONO) then COLOR_WINDOW else COLOR_BTNFACE))) ;;;
  SavePoint <- MoveToEx 0 0 ;;
  (* Draw the outer edge *)
  SelectPen LTOuterPen ;;;
  SetDCPenColor (GetSysColor (LTOuterI c)) ;;;
  when (nz (uFlags .& BF_TOP))
       (MoveToEx (left InnerRect) (top InnerRect) ;;;
        LineTo (right InnerRect) (top InnerRect)) ;;;
  when (nz (uFlags .& BF_LEFT))
       (MoveToEx (left InnerRect) (top InnerRect) ;;;
        LineTo (left InnerRect) (bottom InnerRect)) ;;;
  SelectPen RBOuterPen ;;;
  SetDCPenColor (GetSysColor (RBOuterI c)) ;;;
  when (nz (uFlags .& BF_BOTTOM))
       (MoveToEx (left InnerRect) (bottom InnerRect -! 1) ;;;
        LineTo (right InnerRect) (bottom InnerRect -! 1)) ;;;
  when (nz (uFlags .& BF_RIGHT))
       (MoveToEx (right InnerRect -! 1) (top InnerRect) ;;;
        LineTo (right InnerRect -! 1) (bottom InnerRect)) ;;;
  (* Draw the inner edge *)
  SelectPen LTInnerPen ;;;
  SetDCPenColor (GetSysColor (LTInnerI c)) ;;;
  when (nz (uFlags .& BF_TOP))
       (MoveToEx (left InnerRect +! LTpenplus) (top InnerRect +! 1) ;;;
        LineTo (right InnerRect -! RTpenplus) (top InnerRect +! 1)) ;;;
  when (nz (uFlags .& BF_LEFT))
       (MoveToEx (left InnerRect +! 1) (top InnerRect +! LTpenplus) ;;;
        LineTo (left InnerRect +! 1) (bottom InnerRect -! LBpenplus)) ;;;
  SelectPen RBInnerPen ;;;
  SetDCPenColor (GetSysColor (RBInnerI c)) ;;;
  when (nz (uFlags .& BF_BOTTOM))
       (MoveToEx (left InnerRect +! LBpenplus) (bottom InnerRect -! 2) ;;;
        LineTo (right InnerRect -! RBpenplus) (bottom InnerRect -! 2)) ;;;
  when (nz (uFlags .& BF_RIGHT))
       (MoveToEx (right InnerRect -! 2) (top InnerRect +! RTpenplus) ;;;
        LineTo (right InnerRect -! 2) (bottom InnerRect -! RBpenplus)) ;;;
  rc' <- (if (nz (uFlags .& BF_MIDDLE) && retval) || nz (uFlags .& BF_ADJUST) then
            add <- lift (edge_add uType) ;;
            let InnerRect := adjust_rect InnerRect uFlags add in
            ret (if nz (uFlags .& BF_ADJUST) then InnerRect else rc)
          else ret rc) ;;
  (* Cleanup *)
  SelectPen SavePen ;;;
  MoveToEx (x SavePoint) (y SavePoint) ;;;
  ret (retval, rc').

(** ** [IntDrawDiagEdge] *)

(** [switch (v) { case l1: ... case ln: body }]: does [v] meet one of the
    labels of a group of cases. *)
Definition is_case (v : Z) (labels : list Z) : bool := existsb (Z.eqb v) labels.

(** The first [switch] of [IntDrawDiagEdge]: start point [(spx, spy)] and end
    point [(epx, epy)] of the outer line.  All four are 0 when no label is met. *)
Definition diag_endpoints (rc : RECT) (SmallDiam : Z) (uFlags : UINT) : Z * Z * Z * Z :=
  let sw := uFlags .& BF_RECT in
  if is_case sw [0; BF_LEFT; BF_BOTTOM; BF_BOTTOMLEFT] then
    (* Left bottom endpoint *)
    let epx := left rc -! 1 in
    let spx := epx +! SmallDiam in
    let epy := bottom rc in
    let spy := epy -! SmallDiam in
    (spx, spy, epx, epy)
  else if is_case sw [BF_TOPLEFT; BF_BOTTOMRIGHT] then
    (* Left top endpoint *)
    let epx := left rc -! 1 in
    let spx := epx +! SmallDiam in
    let epy := top rc -! 1 in
    let spy := epy +! SmallDiam in
    (spx, spy, epx, epy)
  else if is_case sw [BF_TOP; BF_RIGHT; BF_TOPRIGHT; BF_RIGHT .| BF_LEFT;
                      BF_RIGHT .| BF_LEFT .| BF_TOP; BF_BOTTOM .| BF_TOP;
                      BF_BOTTOM .| BF_TOP .| BF_LEFT; BF_BOTTOMRIGHT .| BF_LEFT;
                      BF_BOTTOMRIGHT .| BF_TOP; BF_RECT] then
    (* Right top endpoint *)
    let spx := left rc in
    let epx := spx +! SmallDiam in
    let spy := bottom rc -! 1 in
    let epy := spy -! SmallDiam in
    (spx, spy, epx, epy)
  else (0, 0, 0, 0).

(** The second [switch]: the inner line, and the corners of the polygon that
    fills the middle.  Nothing is drawn and [Points] is left unwritten when no
    label is met. *)
Definition diag_inner (rc : RECT) (spx spy epx epy add : Z) (uFlags : UINT)
  : GDI (option (list POINT)) :=
  let sw := uFlags .& (BF_RECT .| BF_DIAGONAL) in
  if is_case sw [BF_DIAGONAL_ENDBOTTOMLEFT; BF_DIAGONAL .| BF_BOTTOM;
                 BF_DIAGONAL; BF_DIAGONAL .| BF_LEFT] then
    MoveToEx (spx -! 1) spy ;;;
    LineTo epx (epy -! 1) ;;;
    let P0 := mkPOINT (spx -! add) spy in
    let P1 := mkPOINT (left rc) (top rc) in
    let P2 := mkPOINT (epx +! 1) (epy -! 1 -! add) in
    ret (Some [P0; P1; P2; P2])
  else if is_case sw [BF_DIAGONAL_ENDBOTTOMRIGHT] then
    MoveToEx (spx -! 1) spy ;;;
    LineTo epx (epy +! 1) ;;;
    let P0 := mkPOINT (spx -! add) spy in
    let P1 := mkPOINT (left rc) (bottom rc -! 1) in
    let P2 := mkPOINT (epx +! 1) (epy +! 1 +! add) in
    ret (Some [P0; P1; P2; P2])
  else if is_case sw [BF_DIAGONAL .| BF_BOTTOM .| BF_RIGHT .| BF_TOP;
                      BF_DIAGONAL .| BF_BOTTOM .| BF_RIGHT .| BF_TOP .| BF_LEFT;
                      BF_DIAGONAL_ENDTOPRIGHT;
                      BF_DIAGONAL .| BF_RIGHT .| BF_TOP .| BF_LEFT] then
    MoveToEx (spx +! 1) spy ;;;
    LineTo epx (epy +! 1) ;;;
    let P0 := mkPOINT (epx -! 1) (epy +! 1 +! add) in
    let P1 := mkPOINT (right rc -! 1) (top rc +! add) in
    let P2 := mkPOINT (right rc -! 1) (bottom rc -! 1) in
    let P3 := mkPOINT (spx +! add) spy in
    ret (Some [P0; P1; P2; P3])
  else if is_case sw [BF_DIAGONAL_ENDTOPLEFT] then
    MoveToEx spx (spy -! 1) ;;;
    LineTo (epx +! 1) epy ;;;
    let P0 := mkPOINT (epx +! 1 +! add) (epy +! 1) in
    let P1 := mkPOINT (right rc -! 1) (top rc) in
    let P2 := mkPOINT (right rc -! 1) (bottom rc -! 1 -! add) in
    let P3 := mkPOINT spx (spy -! add) in
    ret (Some [P0; P1; P2; P3])
  else if is_case sw [BF_DIAGONAL .| BF_TOP; BF_DIAGONAL .| BF_BOTTOM .| BF_TOP;
                      BF_DIAGONAL .| BF_BOTTOM .| BF_TOP .| BF_LEFT] then
    MoveToEx (spx +! 1) (spy -! 1) ;;;
    LineTo epx epy ;;;
    let P0 := mkPOINT (epx -! 1) (epy +! 1) in
    let P1 := mkPOINT (right rc -! 1) (top rc) in
    let P2 := mkPOINT (right rc -! 1) (bottom rc -! 1 -! add) in
    let P3 := mkPOINT (spx +! add) (spy -! add) in
    ret (Some [P0; P1; P2; P3])
  else if is_case sw [BF_DIAGONAL .| BF_RIGHT; BF_DIAGONAL .| BF_RIGHT .| BF_LEFT;
                      BF_DIAGONAL .| BF_RIGHT .| BF_LEFT .| BF_BOTTOM] then
    MoveToEx spx spy ;;;
    LineTo (epx -! 1) (epy +! 1) ;;;
    let P0 := mkPOINT spx spy in
    let P1 := mkPOINT (left rc) (top rc +! add) in
    let P2 := mkPOINT (epx -! 1 -! add) (epy +! 1 +! add) in
    ret (Some [P0; P1; P2; P2])
  else ret None.

Definition IntDrawDiagEdge (rc : RECT) (uType uFlags : UINT) : GDI (BOOL * RECT) :=
  let Width := right rc -! left rc in
  let Height := bottom rc -! top rc in
  let SmallDiam := if Width >? Height then Height else Width in
  let retval := edge_retval uType uFlags in
  add <- lift (edge_add uType) ;;
  (* Init some vars *)
  SavePen <- SelectPen NULL_PEN ;;
  (* Determine the colors of the edges *)
  c <- lift (DiagEdgeColors uType uFlags) ;;
  let InnerI := fst c in
  let OuterI := snd c in
  let InnerPen := edge_pen InnerI in
  let OuterPen := edge_pen OuterI in
  SavePoint <- MoveToEx 0 0 ;;
  let '(spx, spy, epx, epy) := diag_endpoints rc SmallDiam uFlags in
  MoveToEx spx spy ;;;
  SelectPen OuterPen ;;;
  SetDCPenColor (GetSysColor OuterI) ;;;
  LineTo epx epy ;;;
  SelectPen InnerPen ;;;
  SetDCPenColor (GetSysColor InnerI) ;;;
  Points <- diag_inner rc spx spy epx epy add uFlags ;;
  (* Fill the interior if asked *)
  when (nz (uFlags .& BF_MIDDLE) && retval)
       (let face := if nz (uFlags .& BF_MONO) then COLOR_WINDOW else COLOR_BTNFACE in
        hbsave <- SelectBrush DC_BRUSH ;;
        hpsave <- SelectPen DC_PEN ;;
        SetDCBrushColor (GetSysColor face) ;;;
        SetDCPenColor (GetSysColor face) ;;;
        Polygon Points ;;;
        SelectBrush hbsave ;;;
        SelectPen hpsave ;;;
        ret tt) ;;;
  (* Adjust rectangle if asked *)
  let rc' := if nz (uFlags .& BF_ADJUST) then adjust_rect rc uFlags add else rc in
  (* Cleanup *)
  SelectPen SavePen ;;;
  MoveToEx (x SavePoint) (y SavePoint) ;;;
  ret (retval, rc').

(** [DrawEdge]: the diagonal renderer under [BF_DIAGONAL], the rectangular
    one otherwise. *)
Definition DrawEdge (rc : RECT) (edge flags : UINT) : GDI (BOOL * RECT) :=
  if nz (flags .& BF_DIAGONAL)
  then IntDrawDiagEdge rc edge flags
  else IntDrawRectEdge rc edge flags.

(** ** What the two functions paint

    The primitives a call adds to the device context, written out side by
    side; the run lemmas below relate them to the functions. *)

Definition line_if (c : bool) (pen : HPEN) (I : Z) (x0 y0 x1 y1 : LONG) : list PRIM :=
  if c then [PLine pen (GetSysColor I) (mkPOINT x0 y0) (mkPOINT x1 y1)] else [].

Section RectEdgePrims.
Variables (rc : RECT) (uFlags : UINT) (c : EDGECOLORS) (retval : BOOL).

Let fT := nz (uFlags .& BF_TOP).
Let fL := nz (uFlags .& BF_LEFT).
Let fB := nz (uFlags .& BF_BOTTOM).
Let fR := nz (uFlags .& BF_RIGHT).
Let LBpenplus := if uFlags .& BF_BOTTOMLEFT =? BF_BOTTOMLEFT then 1 else 0.
Let RTpenplus := if uFlags .& BF_TOPRIGHT =? BF_TOPRIGHT then 1 else 0.
Let RBpenplus := if uFlags .& BF_BOTTOMRIGHT =? BF_BOTTOMRIGHT then 1 else 0.
Let LTpenplus := if uFlags .& BF_TOPLEFT =? BF_TOPLEFT then 1 else 0.

Definition RectEdge_fill : list PRIM :=
  if nz (uFlags .& BF_MIDDLE) && retval
  then [PFillRect rc (GetSysColorBrush
                        (if nz (uFlags .& BF_MONO) then COLOR_WINDOW else COLOR_BTNFACE))]
  else [].

Definition RectEdge_outer : list PRIM :=
  line_if fT (edge_pen (LTOuterI c)) (LTOuterI c)
          (left rc) (top rc) (right rc) (top rc)
  ++ line_if fL (edge_pen (LTOuterI c)) (LTOuterI c)
          (left rc) (top rc) (left rc) (bottom rc)
  ++ line_if fB (edge_pen (RBOuterI c)) (RBOuterI c)
          (left rc) (bottom rc -! 1) (right rc) (bottom rc -! 1)
  ++ line_if fR (edge_pen (RBOuterI c)) (RBOuterI c)
          (right rc -! 1) (top rc) (right rc -! 1) (bottom rc).

Definition RectEdge_inner : list PRIM :=
  line_if fT (edge_pen (LTInnerI c)) (LTInnerI c)
          (left rc +! LTpenplus) (top rc +! 1) (right rc -! RTpenplus) (top rc +! 1)
  ++ line_if fL (edge_pen (LTInnerI c)) (LTInnerI c)
          (left rc +! 1) (top rc +! LTpenplus) (left rc +! 1) (bottom rc -! LBpenplus)
  ++ line_if fB (edge_pen (RBInnerI c)) (RBInnerI c)
          (left rc +! LBpenplus) (bottom rc -! 2) (right rc -! RBpenplus) (bottom rc -! 2)
  ++ line_if fR (edge_pen (RBInnerI c)) (RBInnerI c)
          (right rc -! 2) (top rc +! RTpenplus) (right rc -! 2) (bottom rc -! RBpenplus).

Definition RectEdge_prims : list PRIM :=
  RectEdge_fill ++ RectEdge_outer ++ RectEdge_inner.
End RectEdgePrims.

(** ** Vocabulary of the properties *)

(** The components of the result of a call. *)
Definition retval_of (r : option (BOOL * RECT * DC)) : option BOOL :=
  option_map (fun v => fst (fst v)) r.

Definition rect_of (r : option (BOOL * RECT * DC)) : option RECT :=
  option_map (fun v => snd (fst v)) r.

(** The primitives a call has added to the device context it started from. *)
Definition painted_by (hdc : DC) (r : option (BOOL * RECT * DC)) : option (list PRIM) :=
  option_map (fun v => skipn (length (dc_out hdc)) (dc_out (snd v))) r.

(** A style code has an outer (inner) bevel when one of its two outer (inner)
    bits is set; it is a single bevel when it has exactly one of the two. *)
Definition has_outer (uType : UINT) : bool := nz (uType .& BDR_OUTER).
Definition has_inner (uType : UINT) : bool := nz (uType .& BDR_INNER).
Definition single_bevel (uType : UINT) : bool := xorb (has_inner uType) (has_outer uType).

(** The four full edges [EDGE_RAISED], [EDGE_SUNKEN], [EDGE_ETCHED] and
    [EDGE_BUMP]: one outer bit and one inner bit. *)
Definition both_bevels (uType : UINT) : bool :=
  is_case (uType .& BDR_OUTER) [BDR_RAISEDOUTER; BDR_SUNKENOUTER]
  && is_case (uType .& BDR_INNER) [BDR_RAISEDINNER; BDR_SUNKENINNER].

Definition is_line (p : PRIM) : bool :=
  match p with PLine _ _ _ _ => true | _ => false end.

(** The brush [IntDrawRectEdge] fills the middle with. *)
Definition middle_brush (uFlags : UINT) : HBRUSH :=
  GetSysColorBrush (if nz (uFlags .& BF_MONO) then COLOR_WINDOW else COLOR_BTNFACE).

(** A device context and a rectangle to evaluate the functions on. *)
Definition sample_dc : DC :=
  mkDC (PenHandle 7) (BrushHandle 9) (RGB 0) (RGB 16777215) (mkPOINT 3 4) [].

Definition sample_rect : RECT := mkRECT 0 0 10 10.

(** ** [UITOOLS_MakeSquareRect]

    "Utility to create a square rectangle and returning the width": the
    result is the pair of the returned [SmallDiam] and of [*dst].  The
    division by 2 is the division of C, which truncates. *)
Definition UITOOLS_MakeSquareRect (src : RECT) : Z * RECT :=
  let Width := right src -! left src in
  let Height := bottom src -! top src in
  let SmallDiam := if Width >? Height then Height else Width in
  let dst := src in
  (* Make it a square box *)
  let dst :=
    if Width <? Height then      (* SmallDiam == Width *)
      let t := top dst +! Z.quot (Height -! Width) 2 in
      mkRECT (left dst) t (right dst) (t +! SmallDiam)
    else if Width >? Height then (* SmallDiam == Height *)
      let l := left dst +! Z.quot (Width -! Height) 2 in
      mkRECT l (top dst) (l +! SmallDiam) (bottom dst)
    else dst in
  (SmallDiam, dst).

(** ** [FrameRect]

    [FrameRect] works through [SelectObject] and [PatBlt] only.  Its device
    context is the selected brush, the handles [SelectObject] accepts, and the
    list of the [PatBlt] calls made so far, each with the brush it was made
    under.  A handle is an integer and [NULL] is 0. *)

Definition HGDIOBJ := Z.

Definition PATCOPY : Z := 0xF00021.

Record BLT : Set := mkBLT {
  blt_x : LONG; blt_y : LONG; blt_w : LONG; blt_h : LONG;
  blt_rop : Z; blt_brush : HGDIOBJ
}.

Record BLTDC : Set := mkBLTDC {
  bdc_brush : HGDIOBJ;
  bdc_objects : list HGDIOBJ;
  bdc_blts : list BLT
}.

(** [SelectObject] returns the object it replaces, and [NULL] when the handle
    is not one of an object. *)
Definition SelectObject (h : HGDIOBJ) (hDC : BLTDC) : HGDIOBJ * BLTDC :=
  if negb (h =? 0) && existsb (Z.eqb h) (bdc_objects hDC)
  then (bdc_brush hDC, mkBLTDC h (bdc_objects hDC) (bdc_blts hDC))
  else (0, hDC).

Definition PatBlt (px py w h : LONG) (rop : Z) (hDC : BLTDC) : BLTDC :=
  mkBLTDC (bdc_brush hDC) (bdc_objects hDC)
          (bdc_blts hDC ++ [mkBLT px py w h rop (bdc_brush hDC)]).

Definition FrameRect (lprc : RECT) (hbr : HGDIOBJ) (hDC : BLTDC) : Z * BLTDC :=
  let r := lprc in
  if (right r <=? left r) || (bottom r <=? top r) then (0, hDC)
  else
    let (oldbrush, hDC) := SelectObject hbr hDC in
    if oldbrush =? 0 then (0, hDC)
    else
      let hDC := PatBlt (left r) (top r) 1 (bottom r -! top r) PATCOPY hDC in
      let hDC := PatBlt (right r -! 1) (top r) 1 (bottom r -! top r) PATCOPY hDC in
      let hDC := PatBlt (left r) (top r) (right r -! left r) 1 PATCOPY hDC in
      let hDC := PatBlt (left r) (bottom r -! 1) (right r -! left r) 1 PATCOPY hDC in
      let hDC := snd (SelectObject oldbrush hDC) in
      (1, hDC).

(** ** Further vocabulary *)

(** The device context after a call. *)
Definition dc_of (r : option (BOOL * RECT * DC)) : option DC :=
  option_map (fun v => snd v) r.

(** The number of sides named in the flags. *)
Definition side_count (uFlags : UINT) : nat :=
  ((if nz (uFlags .& BF_TOP) then 1 else 0) + (if nz (uFlags .& BF_LEFT) then 1 else 0)
   + (if nz (uFlags .& BF_BOTTOM) then 1 else 0) + (if nz (uFlags .& BF_RIGHT) then 1 else 0))%nat.

(** Every line among the primitives is drawn with the pen [pen]. *)
Definition lines_with (pen : HPEN) (l : list PRIM) : Prop :=
  Forall (fun p => match p with PLine pen' _ _ _ => pen' = pen | _ => True end) l.

(** A point of the closed rectangle; a primitive that stays in it. *)
Definition point_in (rc : RECT) (p : POINT) : Prop :=
  left rc <= x p <= right rc /\ top rc <= y p <= bottom rc.

Definition prim_in (rc : RECT) (p : PRIM) : Prop :=
  match p with
  | PLine _ _ p0 p1 => point_in rc p0 /\ point_in rc p1
  | PFillRect r _ => r = rc
  | PPolygon _ _ _ _ _ => False
  end.

(** The coordinates of a rectangle are 32-bit values. *)
Definition RECT_in_range (rc : RECT) : Prop :=
  - 2 ^ 31 <= left rc < 2 ^ 31 /\ - 2 ^ 31 <= top rc < 2 ^ 31 /\
  - 2 ^ 31 <= right rc < 2 ^ 31 /\ - 2 ^ 31 <= bottom rc < 2 ^ 31.

(** The pixels a [PatBlt] of positive extent paints. *)
Definition blt_covers (b : BLT) (px py : Z) : Prop :=
  blt_x b <= px < blt_x b + blt_w b /\ blt_y b <= py < blt_y b + blt_h b.

Definition sample_bltdc : BLTDC := mkBLTDC 11 [11; 12] [].

(** ** Bit tests and table reads *)

Lemma land_low4 (u m : Z) : 0 <= m < 16 -> u .& m = (u .& 15) .& m.
Proof.
  intros Hm. rewrite <- Z.land_assoc. f_equal.
  rewrite Z.land_comm. change 15 with (Z.ones 4).
  rewrite Z.land_ones by lia. symmetry. apply Z.mod_small. simpl; lia.
Qed.

Lemma low4_range (u : Z) : 0 <= u .& 15 < 16.
Proof.
  change 15 with (Z.ones 4). rewrite Z.land_ones by lia.
  apply Z.mod_pos_bound. reflexivity.
Qed.

(** The sixteen values of a 4-bit index. *)
Lemma low4_cases (u : Z) :
  In (u .& 15) [0; 1; 2; 3; 4; 5; 6; 7; 8; 9; 10; 11; 12; 13; 14; 15].
Proof.
  pose proof (low4_range u) as H. simpl.
  assert (u .& 15 = 0 \/ u .& 15 = 1 \/ u .& 15 = 2 \/ u .& 15 = 3 \/
          u .& 15 = 4 \/ u .& 15 = 5 \/ u .& 15 = 6 \/ u .& 15 = 7 \/
          u .& 15 = 8 \/ u .& 15 = 9 \/ u .& 15 = 10 \/ u .& 15 = 11 \/
          u .& 15 = 12 \/ u .& 15 = 13 \/ u .& 15 = 14 \/ u .& 15 = 15) by lia.
  intuition auto.
Qed.

(** Case analysis on the low four bits of [u]. *)
Ltac low4 u :=
  let H := fresh "H" in
  pose proof (low4_cases u) as H; simpl in H;
  repeat (destruct H as [H | H]; [ symmetry in H | ]); [ .. | contradiction ].

Lemma RectEdgeColors_total (uType uFlags : UINT) :
  exists c, RectEdgeColors uType uFlags = Some c.
Proof.
  unfold RectEdgeColors. change (BDR_INNER .| BDR_OUTER) with 15.
  destruct (nz (uFlags .& BF_MONO)); [ | destruct (nz (uFlags .& BF_FLAT));
    [ | destruct (nz (uFlags .& BF_SOFT)) ] ];
    low4 uType; rewrite H; simpl; eauto.
Qed.

Lemma DiagEdgeColors_total (uType uFlags : UINT) :
  exists c, DiagEdgeColors uType uFlags = Some c.
Proof.
  unfold DiagEdgeColors. change (BDR_INNER .| BDR_OUTER) with 15.
  destruct (nz (uFlags .& BF_MONO)); [ | destruct (nz (uFlags .& BF_FLAT));
    [ | destruct (nz (uFlags .& BF_SOFT)); destruct (nz (uFlags .& BF_BOTTOM)) ] ];
    low4 uType; rewrite H; simpl; eauto.
Qed.

(** The width of an edge is 0, 1 or 2 and is always defined. *)
Lemma edge_add_total (uType : UINT) :
  exists add, edge_add uType = Some add /\ 0 <= add <= 2.
Proof.
  unfold edge_add. change (BDR_INNER .| BDR_OUTER) with 15.
  low4 uType; rewrite H; vm_compute; eexists; (split; [reflexivity | split; discriminate]).
Qed.

(** ** Running [IntDrawRectEdge] *)

Lemma IntDrawRectEdge_run (hdc : DC) (rc : RECT) (uType uFlags : UINT) :
  exists c add,
    RectEdgeColors uType uFlags = Some c /\
    edge_add uType = Some add /\
    IntDrawRectEdge rc uType uFlags hdc =
      Some (edge_retval uType uFlags,
            (if nz (uFlags .& BF_ADJUST) then adjust_rect rc uFlags add else rc),
            mkDC (dc_pen hdc) (dc_brush hdc) (GetSysColor (RBInnerI c))
                 (dc_brush_color hdc) (dc_pos hdc)
                 (dc_out hdc ++ RectEdge_prims rc uFlags c (edge_retval uType uFlags))).
Proof.
  destruct (RectEdgeColors_total uType uFlags) as [c Hc].
  destruct (edge_add_total uType) as [add [Hadd _]].
  exists c, add. split; [exact Hc | split; [exact Hadd | ]].
  destruct hdc as [pen0 brush0 pc0 bc0 [px py] out0].
  unfold IntDrawRectEdge, RectEdge_prims, RectEdge_fill, RectEdge_outer, RectEdge_inner.
  cbv beta zeta delta [bind lift].
  rewrite Hc, Hadd.
  destruct (nz (uFlags .& BF_MIDDLE) && edge_retval uType uFlags);
    destruct (nz (uFlags .& BF_TOP)); destruct (nz (uFlags .& BF_LEFT));
    destruct (nz (uFlags .& BF_BOTTOM)); destruct (nz (uFlags .& BF_RIGHT));
    destruct (nz (uFlags .& BF_ADJUST));
    cbv beta iota zeta delta
        [when ret bind SelectPen MoveToEx LineTo FillRect SetDCPenColor paint line_if
         dc_pen dc_brush dc_pen_color dc_brush_color dc_pos dc_out orb x y];
    repeat rewrite <- app_assoc; cbn [app]; rewrite ?app_nil_r; reflexivity.
Qed.

Lemma IntDrawRectEdge_retval (hdc : DC) (rc : RECT) (uType uFlags : UINT) :
  retval_of (IntDrawRectEdge rc uType uFlags hdc) = Some (edge_retval uType uFlags).
Proof.
  destruct (IntDrawRectEdge_run hdc rc uType uFlags) as (c & add & _ & _ & Hrun).
  now rewrite Hrun.
Qed.

Lemma nz_false (z : Z) : nz z = false <-> z = 0.
Proof.
  unfold nz. destruct (Z.eqb_spec z 0); simpl; split; congruence.
Qed.

(** ** The validity rule *)

(** C1, as the code has it.  [IntDrawRectEdge] returns false exactly when
    the style code has both bits of the inner pair or both bits of the outer
    pair set and the flags contain neither [BF_FLAT] nor [BF_MONO]; every
    other style code, single bevels with one bit of the pair included,
    returns true. *)
Theorem rect_edge_false_iff (hdc : DC) (rc : RECT) (uType uFlags : UINT) :
  exists b,
    retval_of (IntDrawRectEdge rc uType uFlags hdc) = Some b /\
    (b = false <->
     (uType .& BDR_INNER = BDR_INNER \/ uType .& BDR_OUTER = BDR_OUTER) /\
     uFlags .& (BF_FLAT .| BF_MONO) = 0).
Proof.
  exists (edge_retval uType uFlags). split; [apply IntDrawRectEdge_retval | ].
  unfold edge_retval.
  rewrite negb_false_iff, andb_true_iff, orb_true_iff, negb_true_iff, nz_false.
  rewrite !Z.eqb_eq. reflexivity.
Qed.

(** C1 as stated fails on the single outer bevel [BDR_RAISEDOUTER] drawn on
    all four sides without modifiers: the call returns true. *)
Lemma single_bevel_returns_true :
  ~ (single_bevel BDR_RAISEDOUTER = true ->
     nz (BF_RECT .& (BF_FLAT .| BF_MONO)) = false ->
     retval_of (IntDrawRectEdge sample_rect BDR_RAISEDOUTER BF_RECT sample_dc) = Some false).
Proof.
  intros H. specialize (H eq_refl eq_refl). vm_compute in H. discriminate H.
Qed.

(** ** Only the low four bits of the style code are read *)

Lemma low4_idem (u : Z) : (u .& 15) .& 15 = u .& 15.
Proof. rewrite <- Z.land_assoc. reflexivity. Qed.

Lemma edge_retval_low4 (uType uFlags : UINT) :
  edge_retval uType uFlags = edge_retval (uType .& 15) uFlags.
Proof.
  unfold edge_retval, BDR_INNER, BDR_OUTER.
  rewrite (land_low4 uType 12), (land_low4 uType 3) by lia.
  reflexivity.
Qed.

Lemma edge_add_low4 (uType : UINT) : edge_add uType = edge_add (uType .& 15).
Proof.
  unfold edge_add. change (BDR_INNER .| BDR_OUTER) with 15. now rewrite low4_idem.
Qed.

Lemma RectEdgeColors_low4 (uType uFlags : UINT) :
  RectEdgeColors uType uFlags = RectEdgeColors (uType .& 15) uFlags.
Proof.
  unfold RectEdgeColors. change (BDR_INNER .| BDR_OUTER) with 15. now rewrite low4_idem.
Qed.

Lemma IntDrawRectEdge_low4 (rc : RECT) (uType uFlags : UINT) :
  IntDrawRectEdge rc uType uFlags = IntDrawRectEdge rc (uType .& 15) uFlags.
Proof.
  unfold IntDrawRectEdge.
  rewrite (edge_retval_low4 uType), (RectEdgeColors_low4 uType), (edge_add_low4 uType).
  reflexivity.
Qed.

(** ** The scenario on the rectangle (0,0,10,10) *)

(** C2.  On the rectangle (0,0,10,10), with a full edge ([EDGE_RAISED],
    [EDGE_SUNKEN], [EDGE_ETCHED] or [EDGE_BUMP]), all four sides and no
    modifier, [IntDrawRectEdge] returns true; with [BF_ADJUST] added it
    returns true and hands back the rectangle (2,2,8,8). *)
Theorem full_edge_scenario (hdc : DC) (uType : UINT) :
  both_bevels uType = true ->
  retval_of (IntDrawRectEdge (mkRECT 0 0 10 10) uType BF_RECT hdc) = Some true /\
  retval_of (IntDrawRectEdge (mkRECT 0 0 10 10) uType (BF_RECT .| BF_ADJUST) hdc)
    = Some true /\
  rect_of (IntDrawRectEdge (mkRECT 0 0 10 10) uType (BF_RECT .| BF_ADJUST) hdc)
    = Some (mkRECT 2 2 8 8).
Proof.
  intros Hb. unfold both_bevels, BDR_OUTER, BDR_INNER in Hb.
  rewrite (land_low4 uType 3), (land_low4 uType 12) in Hb by lia.
  rewrite !(IntDrawRectEdge_low4 _ uType).
  low4 uType; rewrite H in Hb |- *; try discriminate Hb; clear;
    destruct hdc as [pen0 brush0 pc0 bc0 [px py] out0];
    repeat split; vm_compute; reflexivity.
Qed.

Lemma full_edge_scenario_witness :
  retval_of (IntDrawRectEdge (mkRECT 0 0 10 10) EDGE_RAISED BF_RECT sample_dc) = Some true /\
  retval_of (IntDrawRectEdge (mkRECT 0 0 10 10) EDGE_RAISED (BF_RECT .| BF_ADJUST) sample_dc)
    = Some true /\
  rect_of (IntDrawRectEdge (mkRECT 0 0 10 10) EDGE_RAISED (BF_RECT .| BF_ADJUST) sample_dc)
    = Some (mkRECT 2 2 8 8).
Proof. apply (full_edge_scenario sample_dc EDGE_RAISED). reflexivity. Defined.

(** ** Colour resolution *)

(** C3, as the code has it.  The colours are read at the index
    [uType & (BDR_INNER|BDR_OUTER)], the low four bits of the style code:
    two style codes that agree on these four bits resolve the same four
    colours under every flag set, the resolution always has a result, and the
    whole call of [IntDrawRectEdge] is the same for both. *)
Theorem colors_depend_on_low4 (hdc : DC) (rc : RECT) (uType1 uType2 uFlags : UINT) :
  uType1 .& (BDR_INNER .| BDR_OUTER) = uType2 .& (BDR_INNER .| BDR_OUTER) ->
  RectEdgeColors uType1 uFlags = RectEdgeColors uType2 uFlags /\
  (exists c, RectEdgeColors uType1 uFlags = Some c) /\
  IntDrawRectEdge rc uType1 uFlags hdc = IntDrawRectEdge rc uType2 uFlags hdc.
Proof.
  change (BDR_INNER .| BDR_OUTER) with 15. intros Heq. repeat split.
  - now rewrite (RectEdgeColors_low4 uType1), (RectEdgeColors_low4 uType2), Heq.
  - apply RectEdgeColors_total.
  - now rewrite (IntDrawRectEdge_low4 rc uType1), (IntDrawRectEdge_low4 rc uType2), Heq.
Qed.

Lemma colors_depend_on_low4_witness :
  RectEdgeColors EDGE_RAISED BF_RECT = RectEdgeColors (EDGE_RAISED .| 16) BF_RECT /\
  (exists c, RectEdgeColors EDGE_RAISED BF_RECT = Some c) /\
  IntDrawRectEdge sample_rect EDGE_RAISED BF_RECT sample_dc
  = IntDrawRectEdge sample_rect (EDGE_RAISED .| 16) BF_RECT sample_dc.
Proof.
  apply (colors_depend_on_low4 sample_dc sample_rect EDGE_RAISED (EDGE_RAISED .| 16) BF_RECT).
  reflexivity.
Defined.

(** C3 as stated fails: [BDR_RAISEDOUTER] (1) and [EDGE_RAISED] (5) agree on
    bits 0 and 1, yet the first has no inner colours and the second has. *)
Lemma colors_differ_on_bit2 :
  ~ (BDR_RAISEDOUTER .& 3 = EDGE_RAISED .& 3 ->
     RectEdgeColors BDR_RAISEDOUTER BF_RECT = RectEdgeColors EDGE_RAISED BF_RECT).
Proof.
  intros H. specialize (H eq_refl). vm_compute in H. discriminate H.
Qed.

(** ** Running [IntDrawDiagEdge] *)

Lemma diag_inner_run (rc : RECT) (spx spy epx epy add : Z) (uFlags : UINT) (hdc : DC) :
  exists Points inner pos',
    diag_inner rc spx spy epx epy add uFlags hdc =
      Some (Points, mkDC (dc_pen hdc) (dc_brush hdc) (dc_pen_color hdc) (dc_brush_color hdc)
                         pos' (dc_out hdc ++ inner)).
Proof.
  destruct hdc as [pen0 brush0 pc0 bc0 pos0 out0].
  unfold diag_inner.
  repeat match goal with
         | |- context [if is_case ?v ?l then _ else _] => destruct (is_case v l)
         end;
    cbv beta iota zeta delta
        [ret bind MoveToEx LineTo paint dc_pen dc_brush dc_pen_color dc_brush_color
         dc_pos dc_out];
    try (do 3 eexists; reflexivity).
  exists None, [], pos0. now rewrite app_nil_r.
Qed.

Lemma IntDrawDiagEdge_run (hdc : DC) (rc : RECT) (uType uFlags : UINT) :
  exists add new pen_color brush_color,
    edge_add uType = Some add /\
    IntDrawDiagEdge rc uType uFlags hdc =
      Some (edge_retval uType uFlags,
            (if nz (uFlags .& BF_ADJUST) then adjust_rect rc uFlags add else rc),
            mkDC (dc_pen hdc) (dc_brush hdc) pen_color brush_color (dc_pos hdc)
                 (dc_out hdc ++ new)).
Proof.
  destruct (DiagEdgeColors_total uType uFlags) as [c Hc].
  destruct (edge_add_total uType) as [add [Hadd _]].
  exists add.
  destruct hdc as [pen0 brush0 pc0 bc0 [px py] out0].
  unfold IntDrawDiagEdge.
  destruct (diag_endpoints rc _ uFlags) as [[[spx spy] epx] epy].
  cbv beta zeta delta [bind lift].
  rewrite Hc, Hadd.
  cbv beta iota zeta delta
      [ret bind SelectPen MoveToEx LineTo SetDCPenColor paint
       dc_pen dc_brush dc_pen_color dc_brush_color dc_pos dc_out x y].
  match goal with
  | |- context [diag_inner ?a ?b ?c ?d ?e ?f ?g ?h] =>
      destruct (diag_inner_run a b c d e f g h) as (Points & inner & pos' & Hin);
      rewrite Hin
  end.
  destruct (nz (uFlags .& BF_MIDDLE) && edge_retval uType uFlags);
    cbv beta iota zeta delta
        [when ret bind SelectPen SelectBrush SetDCPenColor SetDCBrushColor Polygon MoveToEx
         paint dc_pen dc_brush dc_pen_color dc_brush_color dc_pos dc_out x y];
    repeat rewrite <- app_assoc;
    do 3 eexists; (split; [reflexivity | reflexivity]).
Qed.

Lemma IntDrawDiagEdge_retval (hdc : DC) (rc : RECT) (uType uFlags : UINT) :
  retval_of (IntDrawDiagEdge rc uType uFlags hdc) = Some (edge_retval uType uFlags).
Proof.
  destruct (IntDrawDiagEdge_run hdc rc uType uFlags) as (add & new & pc & bc & _ & Hrun).
  now rewrite Hrun.
Qed.

(** C4.  On every style code and flag set, and whatever the rectangles and
    device contexts, [IntDrawDiagEdge] and [IntDrawRectEdge] return the same
    boolean: one is false exactly when the other is. *)
Theorem diag_and_rect_same_retval
        (hdc1 hdc2 : DC) (rc1 rc2 : RECT) (uType uFlags : UINT) :
  exists b,
    retval_of (IntDrawDiagEdge rc1 uType uFlags hdc1) = Some b /\
    retval_of (IntDrawRectEdge rc2 uType uFlags hdc2) = Some b.
Proof.
  exists (edge_retval uType uFlags).
  split; [apply IntDrawDiagEdge_retval | apply IntDrawRectEdge_retval].
Qed.

(** ** What [IntDrawRectEdge] paints *)

Lemma skipn_length_app {A} (l l' : list A) : skipn (length l) (l ++ l') = l'.
Proof. induction l as [ | a l IH]; simpl; auto. Qed.

Lemma painted_by_rect (hdc : DC) (rc : RECT) (uType uFlags : UINT) :
  exists c,
    RectEdgeColors uType uFlags = Some c /\
    painted_by hdc (IntDrawRectEdge rc uType uFlags hdc)
    = Some (RectEdge_prims rc uFlags c (edge_retval uType uFlags)).
Proof.
  destruct (IntDrawRectEdge_run hdc rc uType uFlags) as (c & add & Hc & _ & Hrun).
  exists c. split; [exact Hc | ].
  rewrite Hrun. unfold painted_by. simpl. now rewrite skipn_length_app.
Qed.

Lemma line_if_lines (b : bool) (pen : HPEN) (I : Z) (x0 y0 x1 y1 : LONG) :
  forallb is_line (line_if b pen I x0 y0 x1 y1) = true.
Proof. now destruct b. Qed.

Lemma RectEdge_outer_lines (rc : RECT) (uFlags : UINT) (c : EDGECOLORS) :
  forallb is_line (RectEdge_outer rc uFlags c) = true.
Proof. unfold RectEdge_outer. now rewrite !forallb_app, !line_if_lines. Qed.

Lemma RectEdge_inner_lines (rc : RECT) (uFlags : UINT) (c : EDGECOLORS) :
  forallb is_line (RectEdge_inner rc uFlags c) = true.
Proof. unfold RectEdge_inner. now rewrite !forallb_app, !line_if_lines. Qed.

(** C5, as the code has it.  When [BF_MIDDLE] is set and the call returns
    true, the first primitive [IntDrawRectEdge] paints is the fill of the
    rectangle it was given, not yet shrunk, with the brush of [COLOR_BTNFACE]
    ([COLOR_WINDOW] under [BF_MONO]); everything painted after it is a line. *)
Theorem middle_fill_first (hdc : DC) (rc : RECT) (uType uFlags : UINT) :
  nz (uFlags .& BF_MIDDLE) = true ->
  retval_of (IntDrawRectEdge rc uType uFlags hdc) = Some true ->
  exists lines,
    painted_by hdc (IntDrawRectEdge rc uType uFlags hdc)
    = Some (PFillRect rc (GetSysColorBrush (if nz (uFlags .& BF_MONO)
                                            then COLOR_WINDOW else COLOR_BTNFACE))
            :: lines) /\
    forallb is_line lines = true.
Proof.
  intros Hmid Hret. rewrite IntDrawRectEdge_retval in Hret. injection Hret as Hret.
  destruct (painted_by_rect hdc rc uType uFlags) as (c & _ & Hp).
  exists (RectEdge_outer rc uFlags c ++ RectEdge_inner rc uFlags c). split.
  - rewrite Hp. unfold RectEdge_prims, RectEdge_fill. now rewrite Hmid, Hret.
  - now rewrite forallb_app, RectEdge_outer_lines, RectEdge_inner_lines.
Qed.

Lemma middle_fill_first_witness :
  exists lines,
    painted_by sample_dc
      (IntDrawRectEdge sample_rect EDGE_RAISED (BF_RECT .| BF_MIDDLE) sample_dc)
    = Some (PFillRect sample_rect
              (GetSysColorBrush (if nz ((BF_RECT .| BF_MIDDLE) .& BF_MONO)
                                 then COLOR_WINDOW else COLOR_BTNFACE))
            :: lines) /\
    forallb is_line lines = true.
Proof.
  apply (middle_fill_first sample_dc sample_rect EDGE_RAISED (BF_RECT .| BF_MIDDLE));
    reflexivity.
Defined.

(** C5 as stated fails where the call returns false: with both outer bits
    set ([BDR_OUTER]) and [BF_MIDDLE] on all four sides, nothing is filled. *)
Lemma no_fill_when_invalid :
  ~ (nz ((BF_RECT .| BF_MIDDLE) .& BF_MIDDLE) = true ->
     exists pre post,
       painted_by sample_dc
         (IntDrawRectEdge sample_rect BDR_OUTER (BF_RECT .| BF_MIDDLE) sample_dc)
       = Some (pre ++ PFillRect sample_rect (middle_brush (BF_RECT .| BF_MIDDLE)) :: post) /\
       forallb (fun p => negb (is_line p)) pre = true).
Proof.
  intros H. destruct (H eq_refl) as (pre & post & Hp & _).
  vm_compute in Hp. injection Hp as Hp.
  assert (Hin : In (PFillRect sample_rect (middle_brush (BF_RECT .| BF_MIDDLE)))
                   (pre ++ PFillRect sample_rect (middle_brush (BF_RECT .| BF_MIDDLE)) :: post))
    by apply in_elt.
  vm_compute in Hin. rewrite <- Hp in Hin. simpl in Hin.
  repeat (destruct Hin as [Hin | Hin]; [discriminate Hin | ]). exact Hin.
Qed.

(** ** 32-bit arithmetic *)

Lemma LONG_wrap_add_l (a b : Z) : LONG_wrap (LONG_wrap a + b) = LONG_wrap (a + b).
Proof.
  unfold LONG_wrap. f_equal.
  replace ((a + 2 ^ 31) mod 2 ^ 32 - 2 ^ 31 + b + 2 ^ 31)
    with ((a + 2 ^ 31) mod 2 ^ 32 + b) by ring.
  rewrite Zplus_mod_idemp_l. f_equal. ring.
Qed.

Lemma LONG_wrap_sub_r (a b : Z) : LONG_wrap (a - LONG_wrap b) = LONG_wrap (a - b).
Proof.
  unfold LONG_wrap. f_equal.
  replace (a - ((b + 2 ^ 31) mod 2 ^ 32 - 2 ^ 31) + 2 ^ 31)
    with (a + 2 ^ 31 + 2 ^ 31 - (b + 2 ^ 31) mod 2 ^ 32) by ring.
  rewrite Zminus_mod_idemp_r. f_equal. ring.
Qed.

Lemma LONG_wrap_small (z : Z) : - 2 ^ 31 <= z < 2 ^ 31 -> LONG_wrap z = z.
Proof.
  intros Hz. unfold LONG_wrap. rewrite Z.mod_small; lia.
Qed.

Lemma ladd_lsub_same (a d : Z) : (a +! d) -! a = LONG_wrap d.
Proof.
  unfold ladd, lsub. replace (LONG_wrap (a + d) - a) with (LONG_wrap (a + d) + - a) by ring.
  rewrite LONG_wrap_add_l. f_equal. ring.
Qed.

Lemma lsub_lsub_same (a d : Z) : a -! (a -! d) = LONG_wrap d.
Proof.
  unfold lsub. rewrite LONG_wrap_sub_r. f_equal. ring.
Qed.

Lemma lsub_diag (a : Z) : a -! a = 0.
Proof. unfold lsub. rewrite Z.sub_diag. reflexivity. Qed.

(** ** Shrinking the rectangle *)

Lemma IntDrawRectEdge_adjust (hdc : DC) (rc : RECT) (uType uFlags : UINT) :
  nz (uFlags .& BF_ADJUST) = true ->
  exists add b hdc',
    edge_add uType = Some add /\ 0 <= add <= 2 /\
    IntDrawRectEdge rc uType uFlags hdc = Some (b, adjust_rect rc uFlags add, hdc').
Proof.
  intros Hadj.
  destruct (IntDrawRectEdge_run hdc rc uType uFlags) as (c & add & _ & Hadd & Hrun).
  destruct (edge_add_total uType) as (add' & Hadd' & Hrange).
  assert (add' = add) by congruence. subst add'.
  rewrite Hadj in Hrun. eauto 7.
Qed.

(** The per-side amounts by which [adjust_rect] moves a rectangle,
    measured in 32-bit arithmetic. *)
Lemma adjust_rect_amounts (rc : RECT) (uFlags : UINT) (add : Z) :
  0 <= add <= 2 ->
  left (adjust_rect rc uFlags add) -! left rc = (if nz (uFlags .& BF_LEFT) then add else 0) /\
  top (adjust_rect rc uFlags add) -! top rc = (if nz (uFlags .& BF_TOP) then add else 0) /\
  right rc -! right (adjust_rect rc uFlags add)
    = (if nz (uFlags .& BF_RIGHT) then add else 0) /\
  bottom rc -! bottom (adjust_rect rc uFlags add)
    = (if nz (uFlags .& BF_BOTTOM) then add else 0).
Proof.
  intros Hadd. unfold adjust_rect. cbn [left top right bottom].
  assert (Hw : LONG_wrap add = add) by (apply LONG_wrap_small; lia).
  destruct (nz (uFlags .& BF_LEFT)), (nz (uFlags .& BF_TOP)),
           (nz (uFlags .& BF_RIGHT)), (nz (uFlags .& BF_BOTTOM));
    rewrite ?ladd_lsub_same, ?lsub_lsub_same, ?lsub_diag, ?Hw; auto.
Qed.

(** C6.  With [BF_ADJUST] set, a call of [IntDrawRectEdge] and a second
    call with the same style and flags on the rectangle the first one handed
    back move every side by the same amount: the width [add] of the edge,
    read from the style code alone, on the sides named in the flags and 0 on
    the others. *)
Theorem adjust_same_amount (hdc : DC) (rc : RECT) (uType uFlags : UINT) :
  nz (uFlags .& BF_ADJUST) = true ->
  exists add b1 rc1 hdc1 b2 rc2 hdc2,
    edge_add uType = Some add /\
    IntDrawRectEdge rc uType uFlags hdc = Some (b1, rc1, hdc1) /\
    IntDrawRectEdge rc1 uType uFlags hdc1 = Some (b2, rc2, hdc2) /\
    rc1 = adjust_rect rc uFlags add /\
    rc2 = adjust_rect rc1 uFlags add /\
    (let d side := if nz (uFlags .& side) then add else 0 in
     (left rc1 -! left rc = d BF_LEFT /\ left rc2 -! left rc1 = d BF_LEFT) /\
     (top rc1 -! top rc = d BF_TOP /\ top rc2 -! top rc1 = d BF_TOP) /\
     (right rc -! right rc1 = d BF_RIGHT /\ right rc1 -! right rc2 = d BF_RIGHT) /\
     (bottom rc -! bottom rc1 = d BF_BOTTOM /\ bottom rc1 -! bottom rc2 = d BF_BOTTOM)).
Proof.
  intros Hadj.
  destruct (IntDrawRectEdge_adjust hdc rc uType uFlags Hadj)
    as (add & b1 & hdc1 & Hadd & Hrange & Hrun1).
  destruct (IntDrawRectEdge_adjust hdc1 (adjust_rect rc uFlags add) uType uFlags Hadj)
    as (add' & b2 & hdc2 & Hadd' & _ & Hrun2).
  assert (add' = add) by congruence. subst add'.
  exists add, b1, (adjust_rect rc uFlags add), hdc1,
         b2, (adjust_rect (adjust_rect rc uFlags add) uFlags add), hdc2.
  repeat (split; [assumption || reflexivity | ]).
  pose proof (adjust_rect_amounts rc uFlags add Hrange) as (Hl1 & Ht1 & Hr1 & Hb1).
  pose proof (adjust_rect_amounts (adjust_rect rc uFlags add) uFlags add Hrange)
    as (Hl2 & Ht2 & Hr2 & Hb2).
  cbv zeta. auto 10.
Qed.

Lemma adjust_same_amount_witness :
  exists add b1 rc1 hdc1 b2 rc2 hdc2,
    edge_add EDGE_SUNKEN = Some add /\
    IntDrawRectEdge sample_rect EDGE_SUNKEN (BF_TOPLEFT .| BF_ADJUST) sample_dc
      = Some (b1, rc1, hdc1) /\
    IntDrawRectEdge rc1 EDGE_SUNKEN (BF_TOPLEFT .| BF_ADJUST) hdc1 = Some (b2, rc2, hdc2) /\
    rc1 = adjust_rect sample_rect (BF_TOPLEFT .| BF_ADJUST) add /\
    rc2 = adjust_rect rc1 (BF_TOPLEFT .| BF_ADJUST) add /\
    (let d side := if nz ((BF_TOPLEFT .| BF_ADJUST) .& side) then add else 0 in
     (left rc1 -! left sample_rect = d BF_LEFT /\ left rc2 -! left rc1 = d BF_LEFT) /\
     (top rc1 -! top sample_rect = d BF_TOP /\ top rc2 -! top rc1 = d BF_TOP) /\
     (right sample_rect -! right rc1 = d BF_RIGHT /\ right rc1 -! right rc2 = d BF_RIGHT) /\
     (bottom sample_rect -! bottom rc1 = d BF_BOTTOM /\
      bottom rc1 -! bottom rc2 = d BF_BOTTOM)).
Proof.
  apply (adjust_same_amount sample_dc sample_rect EDGE_SUNKEN (BF_TOPLEFT .| BF_ADJUST)).
  reflexivity.
Defined.

(** ** Corner adjustment *)

Lemma test_TOPLEFT (u : UINT) :
  (u .& BF_TOPLEFT =? BF_TOPLEFT) = nz (u .& BF_TOP) && nz (u .& BF_LEFT).
Proof.
  unfold BF_TOPLEFT, BF_TOP, BF_LEFT. simpl (2 .| 1).
  rewrite (land_low4 u 3), (land_low4 u 2), (land_low4 u 1) by lia.
  low4 u; rewrite H; reflexivity.
Qed.

Lemma test_TOPRIGHT (u : UINT) :
  (u .& BF_TOPRIGHT =? BF_TOPRIGHT) = nz (u .& BF_TOP) && nz (u .& BF_RIGHT).
Proof.
  unfold BF_TOPRIGHT, BF_TOP, BF_RIGHT. simpl (2 .| 4).
  rewrite (land_low4 u 6), (land_low4 u 2), (land_low4 u 4) by lia.
  low4 u; rewrite H; reflexivity.
Qed.

Lemma test_BOTTOMLEFT (u : UINT) :
  (u .& BF_BOTTOMLEFT =? BF_BOTTOMLEFT) = nz (u .& BF_BOTTOM) && nz (u .& BF_LEFT).
Proof.
  unfold BF_BOTTOMLEFT, BF_BOTTOM, BF_LEFT. simpl (8 .| 1).
  rewrite (land_low4 u 9), (land_low4 u 8), (land_low4 u 1) by lia.
  low4 u; rewrite H; reflexivity.
Qed.

Lemma test_BOTTOMRIGHT (u : UINT) :
  (u .& BF_BOTTOMRIGHT =? BF_BOTTOMRIGHT) = nz (u .& BF_BOTTOM) && nz (u .& BF_RIGHT).
Proof.
  unfold BF_BOTTOMRIGHT, BF_BOTTOM, BF_RIGHT. simpl (8 .| 4).
  rewrite (land_low4 u 12), (land_low4 u 8), (land_low4 u 4) by lia.
  low4 u; rewrite H; reflexivity.
Qed.

(** Clearing the bits [a] of [u] ([u & ~a]) leaves the tests on other bits
    as they were and makes the tests on [a] fail. *)
Lemma land_clear (u a m : Z) : Z.lnot a .& m = m -> (u .& Z.lnot a) .& m = u .& m.
Proof. intros H. now rewrite <- Z.land_assoc, H. Qed.

Lemma land_clear_self (u a : Z) : (u .& Z.lnot a) .& a = 0.
Proof.
  rewrite <- Z.land_assoc, (Z.land_comm (Z.lnot a)), Z.land_lnot_diag. apply Z.land_0_r.
Qed.

Lemma RectEdge_prims_clear (hdc : DC) (rc : RECT) (uType uFlags a : UINT) :
  In a [BF_LEFT; BF_TOP] ->
  exists c,
    RectEdgeColors uType uFlags = Some c /\
    painted_by hdc (IntDrawRectEdge rc uType (uFlags .& Z.lnot a) hdc)
    = Some (RectEdge_fill rc uFlags (edge_retval uType uFlags)
            ++ RectEdge_outer rc (uFlags .& Z.lnot a) c
            ++ RectEdge_inner rc (uFlags .& Z.lnot a) c).
Proof.
  intros Ha.
  destruct (painted_by_rect hdc rc uType (uFlags .& Z.lnot a)) as (c & Hc & Hp).
  exists c. rewrite Hp. clear Hp.
  unfold RectEdge_prims, RectEdge_fill, edge_retval.
  unfold RectEdgeColors in Hc |- *.
  destruct Ha as [<- | [<- | []]];
    rewrite !land_clear in Hc |- * by reflexivity; auto.
Qed.

(** C7.  When [BF_TOP] and [BF_LEFT] are both set, that is when the
    top-left corner [BF_TOPLEFT] is selected, the inner top line starts at
    [left + 1] and the inner left line at [top + 1]; the same call with
    [BF_LEFT] cleared starts its inner top line at [left + 0], and the same
    call with [BF_TOP] cleared starts its inner left line at [top + 0]: one
    pixel less inward.  The primitives painted by the three calls are listed
    in the order they are painted. *)
Theorem corner_top_left (hdc : DC) (rc : RECT) (uType uFlags : UINT) :
  nz (uFlags .& BF_TOP) = true ->
  nz (uFlags .& BF_LEFT) = true ->
  exists c,
    let l := left rc in
    let t := top rc in
    let r := right rc in
    let b := bottom rc in
    let fB := nz (uFlags .& BF_BOTTOM) in
    let fR := nz (uFlags .& BF_RIGHT) in
    let rt := if fR then 1 else 0 in
    let lb := if fB then 1 else 0 in
    let rb := if fB && fR then 1 else 0 in
    let inner_LT := PLine (edge_pen (LTInnerI c)) (GetSysColor (LTInnerI c)) in
    let fill := RectEdge_fill rc uFlags (edge_retval uType uFlags) in
    let top_outer :=
      PLine (edge_pen (LTOuterI c)) (GetSysColor (LTOuterI c)) (mkPOINT l t) (mkPOINT r t) in
    let left_outer :=
      PLine (edge_pen (LTOuterI c)) (GetSysColor (LTOuterI c)) (mkPOINT l t) (mkPOINT l b) in
    let bottom_outer :=
      line_if fB (edge_pen (RBOuterI c)) (RBOuterI c) l (b -! 1) r (b -! 1) in
    let right_outer :=
      line_if fR (edge_pen (RBOuterI c)) (RBOuterI c) (r -! 1) t (r -! 1) b in
    let bottom_inner from :=
      line_if fB (edge_pen (RBInnerI c)) (RBInnerI c) from (b -! 2) (r -! rb) (b -! 2) in
    let right_inner from :=
      line_if fR (edge_pen (RBInnerI c)) (RBInnerI c) (r -! 2) from (r -! 2) (b -! rb) in
    RectEdgeColors uType uFlags = Some c /\
    painted_by hdc (IntDrawRectEdge rc uType uFlags hdc)
    = Some (fill ++ [top_outer; left_outer] ++ bottom_outer ++ right_outer
            ++ [inner_LT (mkPOINT (l +! 1) (t +! 1)) (mkPOINT (r -! rt) (t +! 1));
                inner_LT (mkPOINT (l +! 1) (t +! 1)) (mkPOINT (l +! 1) (b -! lb))]
            ++ bottom_inner (l +! lb) ++ right_inner (t +! rt)) /\
    painted_by hdc (IntDrawRectEdge rc uType (uFlags .& Z.lnot BF_LEFT) hdc)
    = Some (fill ++ [top_outer] ++ bottom_outer ++ right_outer
            ++ [inner_LT (mkPOINT (l +! 0) (t +! 1)) (mkPOINT (r -! rt) (t +! 1))]
            ++ bottom_inner (l +! 0) ++ right_inner (t +! rt)) /\
    painted_by hdc (IntDrawRectEdge rc uType (uFlags .& Z.lnot BF_TOP) hdc)
    = Some (fill ++ [left_outer] ++ bottom_outer ++ right_outer
            ++ [inner_LT (mkPOINT (l +! 1) (t +! 0)) (mkPOINT (l +! 1) (b -! lb))]
            ++ bottom_inner (l +! lb) ++ right_inner (t +! 0)) /\
    (l +! 0) +! 1 = l +! 1 /\
    (t +! 0) +! 1 = t +! 1.
Proof.
  intros HT HL.
  destruct (painted_by_rect hdc rc uType uFlags) as (c & Hc & Hp1).
  destruct (RectEdge_prims_clear hdc rc uType uFlags BF_LEFT) as (c2 & Hc2 & Hp2);
    [simpl; auto | ].
  destruct (RectEdge_prims_clear hdc rc uType uFlags BF_TOP) as (c3 & Hc3 & Hp3);
    [simpl; auto | ].
  assert (c2 = c) by congruence. assert (c3 = c) by congruence. subst c2 c3.
  exists c. cbv zeta.
  rewrite Hp1, Hp2, Hp3. clear Hp1 Hp2 Hp3.
  unfold RectEdge_prims, RectEdge_outer, RectEdge_inner. cbv zeta.
  rewrite !test_TOPLEFT, !test_TOPRIGHT, !test_BOTTOMLEFT, !test_BOTTOMRIGHT.
  rewrite !land_clear_self, !land_clear by reflexivity.
  rewrite HT, HL. change (nz 0) with false.
  rewrite ?andb_true_r, ?andb_false_r, ?andb_true_l, ?andb_false_l.
  cbn [line_if app].
  repeat rewrite <- app_assoc.
  repeat split; try reflexivity; try assumption;
    unfold ladd; rewrite LONG_wrap_add_l; f_equal; ring.
Qed.

Lemma corner_top_left_witness :
  exists c,
    RectEdgeColors EDGE_RAISED BF_RECT = Some c /\
    painted_by sample_dc (IntDrawRectEdge sample_rect EDGE_RAISED BF_RECT sample_dc)
    = Some ([PLine DC_PEN (GetSysColor COLOR_3DLIGHT) (mkPOINT 0 0) (mkPOINT 10 0);
             PLine DC_PEN (GetSysColor COLOR_3DLIGHT) (mkPOINT 0 0) (mkPOINT 0 10);
             PLine DC_PEN (GetSysColor COLOR_3DDKSHADOW) (mkPOINT 0 9) (mkPOINT 10 9);
             PLine DC_PEN (GetSysColor COLOR_3DDKSHADOW) (mkPOINT 9 0) (mkPOINT 9 10);
             PLine DC_PEN (GetSysColor COLOR_BTNHIGHLIGHT) (mkPOINT 1 1) (mkPOINT 9 1);
             PLine DC_PEN (GetSysColor COLOR_BTNHIGHLIGHT) (mkPOINT 1 1) (mkPOINT 1 9);
             PLine DC_PEN (GetSysColor COLOR_BTNSHADOW) (mkPOINT 1 8) (mkPOINT 9 8);
             PLine DC_PEN (GetSysColor COLOR_BTNSHADOW) (mkPOINT 8 1) (mkPOINT 8 9)]) /\
    painted_by sample_dc
      (IntDrawRectEdge sample_rect EDGE_RAISED (BF_RECT .& Z.lnot BF_LEFT) sample_dc)
    = Some ([PLine DC_PEN (GetSysColor COLOR_3DLIGHT) (mkPOINT 0 0) (mkPOINT 10 0);
             PLine DC_PEN (GetSysColor COLOR_3DDKSHADOW) (mkPOINT 0 9) (mkPOINT 10 9);
             PLine DC_PEN (GetSysColor COLOR_3DDKSHADOW) (mkPOINT 9 0) (mkPOINT 9 10);
             PLine DC_PEN (GetSysColor COLOR_BTNHIGHLIGHT) (mkPOINT 0 1) (mkPOINT 9 1);
             PLine DC_PEN (GetSysColor COLOR_BTNSHADOW) (mkPOINT 0 8) (mkPOINT 9 8);
             PLine DC_PEN (GetSysColor COLOR_BTNSHADOW) (mkPOINT 8 1) (mkPOINT 8 9)]) /\
    painted_by sample_dc
      (IntDrawRectEdge sample_rect EDGE_RAISED (BF_RECT .& Z.lnot BF_TOP) sample_dc)
    = Some ([PLine DC_PEN (GetSysColor COLOR_3DLIGHT) (mkPOINT 0 0) (mkPOINT 0 10);
             PLine DC_PEN (GetSysColor COLOR_3DDKSHADOW) (mkPOINT 0 9) (mkPOINT 10 9);
             PLine DC_PEN (GetSysColor COLOR_3DDKSHADOW) (mkPOINT 9 0) (mkPOINT 9 10);
             PLine DC_PEN (GetSysColor COLOR_BTNHIGHLIGHT) (mkPOINT 1 0) (mkPOINT 1 9);
             PLine DC_PEN (GetSysColor COLOR_BTNSHADOW) (mkPOINT 1 8) (mkPOINT 9 8);
             PLine DC_PEN (GetSysColor COLOR_BTNSHADOW) (mkPOINT 8 0) (mkPOINT 8 9)]).
Proof.
  destruct (corner_top_left sample_dc sample_rect EDGE_RAISED BF_RECT eq_refl eq_refl)
    as (c & Hc & H1 & H2 & H3 & _).
  exists c. vm_compute in Hc. injection Hc as <-.
  split; [reflexivity | ]. split; [exact H1 | ]. split; [exact H2 | exact H3].
Defined.

(** ** The diagonal that ends bottom-left *)

(** C8, as the code has it.  On a square rectangle of side [N], with the
    orientation [BF_DIAGONAL_ENDBOTTOMLEFT], [IntDrawDiagEdge] first paints
    the outer line from [(left - 1 + N, bottom - N)] to [(left - 1, bottom)],
    then the inner line from [(left - 1 + N - 1, bottom - N)] to
    [(left - 1, bottom - 1)]: the start of the outer line moved one pixel to
    the left and its end one pixel up.  The polygon that fills the middle, if
    any, comes last. *)
Theorem diag_endbottomleft_square
        (hdc : DC) (rc : RECT) (uType uFlags : UINT) (N : Z) :
  uFlags .& (BF_RECT .| BF_DIAGONAL) = BF_DIAGONAL_ENDBOTTOMLEFT ->
  right rc -! left rc = N ->
  bottom rc -! top rc = N ->
  exists InnerI OuterI add,
    let spx := left rc -! 1 +! N in
    let spy := bottom rc -! N in
    let epx := left rc -! 1 in
    let epy := bottom rc in
    let face :=
      GetSysColor (if nz (uFlags .& BF_MONO) then COLOR_WINDOW else COLOR_BTNFACE) in
    DiagEdgeColors uType uFlags = Some (InnerI, OuterI) /\
    edge_add uType = Some add /\
    painted_by hdc (IntDrawDiagEdge rc uType uFlags hdc)
    = Some ([PLine (edge_pen OuterI) (GetSysColor OuterI)
                   (mkPOINT spx spy) (mkPOINT epx epy);
             PLine (edge_pen InnerI) (GetSysColor InnerI)
                   (mkPOINT (spx -! 1) spy) (mkPOINT epx (epy -! 1))]
            ++ (if nz (uFlags .& BF_MIDDLE) && edge_retval uType uFlags
                then [PPolygon DC_PEN face DC_BRUSH face
                        (Some [mkPOINT (spx -! add) spy;
                               mkPOINT (left rc) (top rc);
                               mkPOINT (epx +! 1) (epy -! 1 -! add);
                               mkPOINT (epx +! 1) (epy -! 1 -! add)])]
                else [])).
Proof.
  intros Hsw HW HH.
  assert (Hrect : uFlags .& BF_RECT = BF_BOTTOMLEFT).
  { change BF_RECT with ((BF_RECT .| BF_DIAGONAL) .& 15).
    rewrite Z.land_assoc, Hsw. reflexivity. }
  destruct (DiagEdgeColors_total uType uFlags) as [[InnerI OuterI] Hc].
  destruct (edge_add_total uType) as [add [Hadd _]].
  exists InnerI, OuterI, add. cbv zeta.
  split; [exact Hc | split; [exact Hadd | ]].
  destruct hdc as [pen0 brush0 pc0 bc0 [px py] out0].
  unfold painted_by, IntDrawDiagEdge, diag_endpoints, diag_inner.
  rewrite HW, HH, Hsw, Hrect, Z.gtb_ltb, Z.ltb_irrefl.
  change (is_case BF_BOTTOMLEFT [0; BF_LEFT; BF_BOTTOM; BF_BOTTOMLEFT]) with true.
  change (is_case BF_DIAGONAL_ENDBOTTOMLEFT
            [BF_DIAGONAL_ENDBOTTOMLEFT; BF_DIAGONAL .| BF_BOTTOM; BF_DIAGONAL;
             BF_DIAGONAL .| BF_LEFT]) with true.
  cbv beta iota zeta delta [bind lift].
  rewrite Hc, Hadd.
  destruct (nz (uFlags .& BF_MIDDLE) && edge_retval uType uFlags);
    cbv beta iota zeta delta
        [when ret bind SelectPen SelectBrush SetDCPenColor SetDCBrushColor Polygon MoveToEx
         LineTo paint dc_pen dc_brush dc_pen_color dc_brush_color dc_pos dc_out x y
         option_map fst snd];
    repeat rewrite <- app_assoc; rewrite skipn_length_app; reflexivity.
Qed.

Lemma diag_endbottomleft_square_witness :
  painted_by sample_dc
    (IntDrawDiagEdge sample_rect EDGE_RAISED BF_DIAGONAL_ENDBOTTOMLEFT sample_dc)
  = Some [PLine DC_PEN (GetSysColor COLOR_3DDKSHADOW) (mkPOINT 9 0) (mkPOINT (-1) 10);
          PLine DC_PEN (GetSysColor COLOR_BTNSHADOW) (mkPOINT 8 0) (mkPOINT (-1) 9)].
Proof.
  destruct (diag_endbottomleft_square sample_dc sample_rect EDGE_RAISED
              BF_DIAGONAL_ENDBOTTOMLEFT 10 eq_refl eq_refl eq_refl)
    as (InnerI & OuterI & add & Hc & _ & Hp).
  vm_compute in Hc. injection Hc as <- <-. exact Hp.
Defined.

(** C8 as stated fails on the square (0,0,10,10): no line from (0,10) to
    (10,0), in either direction, is among the primitives painted. *)
Lemma diag_outer_line_not_as_stated :
  ~ (exists pen color new,
       painted_by sample_dc
         (IntDrawDiagEdge sample_rect EDGE_RAISED BF_DIAGONAL_ENDBOTTOMLEFT sample_dc)
       = Some new /\
       (In (PLine pen color (mkPOINT 0 10) (mkPOINT 10 0)) new \/
        In (PLine pen color (mkPOINT 10 0) (mkPOINT 0 10)) new)).
Proof.
  intros (pen & color & new & Hp & Hin).
  vm_compute in Hp. injection Hp as <-. simpl in Hin.
  destruct Hin as [Hin | Hin];
    repeat (destruct Hin as [Hin | Hin]; [discriminate Hin | ]); exact Hin.
Qed.

(** ** The caller's rectangle *)

(** C9.  Without [BF_ADJUST] in the flags, the rectangle handed back by
    [IntDrawRectEdge], by [IntDrawDiagEdge] and by [DrawEdge] is the
    rectangle they were given, all four coordinates unchanged. *)
Theorem rect_unchanged_without_adjust
        (hdc : DC) (rc : RECT) (uType uFlags : UINT) :
  nz (uFlags .& BF_ADJUST) = false ->
  rect_of (IntDrawRectEdge rc uType uFlags hdc) = Some rc /\
  rect_of (IntDrawDiagEdge rc uType uFlags hdc) = Some rc /\
  rect_of (DrawEdge rc uType uFlags hdc) = Some rc.
Proof.
  intros Hadj.
  destruct (IntDrawRectEdge_run hdc rc uType uFlags) as (c & add & _ & _ & Hrect).
  destruct (IntDrawDiagEdge_run hdc rc uType uFlags) as (add' & new & pc & bc & _ & Hdiag).
  rewrite Hadj in Hrect, Hdiag.
  assert (Hr : rect_of (IntDrawRectEdge rc uType uFlags hdc) = Some rc) by now rewrite Hrect.
  assert (Hd : rect_of (IntDrawDiagEdge rc uType uFlags hdc) = Some rc) by now rewrite Hdiag.
  repeat split; try assumption.
  unfold DrawEdge. now destruct (nz (uFlags .& BF_DIAGONAL)).
Qed.

Lemma rect_unchanged_without_adjust_witness :
  rect_of (IntDrawRectEdge sample_rect EDGE_ETCHED (BF_RECT .| BF_MIDDLE) sample_dc)
    = Some sample_rect /\
  rect_of (IntDrawDiagEdge sample_rect EDGE_ETCHED (BF_RECT .| BF_MIDDLE) sample_dc)
    = Some sample_rect /\
  rect_of (DrawEdge sample_rect EDGE_ETCHED (BF_RECT .| BF_MIDDLE) sample_dc)
    = Some sample_rect.
Proof.
  apply (rect_unchanged_without_adjust sample_dc sample_rect EDGE_ETCHED
           (BF_RECT .| BF_MIDDLE)).
  reflexivity.
Defined.

(** ** The flat inner colour *)

(** C10.  Every entry of [LTRBInnerFlat] is [-1] or [COLOR_BTNFACE], so
    under [BF_FLAT] (without [BF_MONO]) setting the inner colour to
    [COLOR_BTNFACE] when it is not [-1] changes nothing: the colours
    [IntDrawRectEdge] resolves, and paints with, are the entries of the two
    flat tables at the style code. *)
Theorem flat_inner_override_identity
        (hdc : DC) (rc : RECT) (uType uFlags : UINT) :
  nz (uFlags .& BF_MONO) = false ->
  nz (uFlags .& BF_FLAT) = true ->
  Forall (fun v => v = -1 \/ v = COLOR_BTNFACE) LTRBInnerFlat /\
  exists InnerI OuterI,
    tbl_at LTRBInnerFlat (uType .& (BDR_INNER .| BDR_OUTER)) = Some InnerI /\
    tbl_at LTRBOuterFlat (uType .& (BDR_INNER .| BDR_OUTER)) = Some OuterI /\
    RectEdgeColors uType uFlags = Some (mkEDGECOLORS InnerI OuterI InnerI OuterI) /\
    painted_by hdc (IntDrawRectEdge rc uType uFlags hdc)
    = Some (RectEdge_prims rc uFlags (mkEDGECOLORS InnerI OuterI InnerI OuterI)
              (edge_retval uType uFlags)).
Proof.
  intros Hmono Hflat. split.
  - unfold LTRBInnerFlat.
    repeat (constructor; [ (left; reflexivity) || (right; reflexivity) | ]).
    constructor.
  - destruct (painted_by_rect hdc rc uType uFlags) as (c & Hc & Hp).
    rewrite Hp, Hc. clear Hp.
    unfold RectEdgeColors in Hc. rewrite Hmono, Hflat in Hc.
    change (BDR_INNER .| BDR_OUTER) with 15 in *.
    low4 uType; rewrite H in Hc |- *; vm_compute in Hc; injection Hc as <-;
      do 2 eexists; repeat split; reflexivity.
Qed.

Lemma flat_inner_override_identity_witness :
  Forall (fun v => v = -1 \/ v = COLOR_BTNFACE) LTRBInnerFlat /\
  exists InnerI OuterI,
    tbl_at LTRBInnerFlat (EDGE_SUNKEN .& (BDR_INNER .| BDR_OUTER)) = Some InnerI /\
    tbl_at LTRBOuterFlat (EDGE_SUNKEN .& (BDR_INNER .| BDR_OUTER)) = Some OuterI /\
    RectEdgeColors EDGE_SUNKEN (BF_RECT .| BF_FLAT)
    = Some (mkEDGECOLORS InnerI OuterI InnerI OuterI) /\
    painted_by sample_dc
      (IntDrawRectEdge sample_rect EDGE_SUNKEN (BF_RECT .| BF_FLAT) sample_dc)
    = Some (RectEdge_prims sample_rect (BF_RECT .| BF_FLAT)
              (mkEDGECOLORS InnerI OuterI InnerI OuterI)
              (edge_retval EDGE_SUNKEN (BF_RECT .| BF_FLAT))).
Proof.
  apply (flat_inner_override_identity sample_dc sample_rect EDGE_SUNKEN (BF_RECT .| BF_FLAT));
    reflexivity.
Defined.

(** * Further properties of the edge renderers *)

(** ** The device context after a call *)

(** X1.  [IntDrawRectEdge] hands the device context back with the pen, the
    brush, the brush colour and the current position it found; the DC pen
    colour is left at the colour of the bottom-right inner line, and the
    primitives painted before the call are still there, followed by the new
    ones. *)
Theorem IntDrawRectEdge_restores (hdc : DC) (rc : RECT) (uType uFlags : UINT) :
  exists c hdc' new,
    RectEdgeColors uType uFlags = Some c /\
    dc_of (IntDrawRectEdge rc uType uFlags hdc) = Some hdc' /\
    dc_pen hdc' = dc_pen hdc /\
    dc_brush hdc' = dc_brush hdc /\
    dc_brush_color hdc' = dc_brush_color hdc /\
    dc_pos hdc' = dc_pos hdc /\
    dc_pen_color hdc' = GetSysColor (RBInnerI c) /\
    dc_out hdc' = dc_out hdc ++ new.
Proof.
  destruct (IntDrawRectEdge_run hdc rc uType uFlags) as (c & add & Hc & _ & Hrun).
  rewrite Hrun. cbn [dc_of option_map snd].
  do 3 eexists. repeat split; try reflexivity. exact Hc.
Qed.

(** X2.  [IntDrawDiagEdge] hands the device context back with the pen, the
    brush and the current position it found, also when it has selected
    [DC_BRUSH] and [DC_PEN] to fill the middle; it only adds to the
    primitives painted. *)
Theorem IntDrawDiagEdge_restores (hdc : DC) (rc : RECT) (uType uFlags : UINT) :
  exists hdc' new,
    dc_of (IntDrawDiagEdge rc uType uFlags hdc) = Some hdc' /\
    dc_pen hdc' = dc_pen hdc /\
    dc_brush hdc' = dc_brush hdc /\
    dc_pos hdc' = dc_pos hdc /\
    dc_out hdc' = dc_out hdc ++ new.
Proof.
  destruct (IntDrawDiagEdge_run hdc rc uType uFlags) as (add & new & pc & bc & _ & Hrun).
  rewrite Hrun. cbn [dc_of option_map snd].
  do 2 eexists. repeat split; reflexivity.
Qed.

(** ** How much [IntDrawRectEdge] paints *)

Lemma line_if_length (b : bool) (pen : HPEN) (I : Z) (x0 y0 x1 y1 : LONG) :
  length (line_if b pen I x0 y0 x1 y1) = if b then 1%nat else 0%nat.
Proof. now destruct b. Qed.

(** X3.  [IntDrawRectEdge] paints, in this order, the fill of the rectangle
    when [BF_MIDDLE] is set and the call returns true, and nothing in its
    place otherwise, then two lines for every side named in the flags: none
    when no side is named, eight for [BF_RECT].  The lines are painted also
    when the call returns false. *)
Theorem IntDrawRectEdge_line_count (hdc : DC) (rc : RECT) (uType uFlags : UINT) :
  exists b lines,
    retval_of (IntDrawRectEdge rc uType uFlags hdc) = Some b /\
    painted_by hdc (IntDrawRectEdge rc uType uFlags hdc)
    = Some ((if nz (uFlags .& BF_MIDDLE) && b
             then [PFillRect rc (middle_brush uFlags)] else []) ++ lines) /\
    forallb is_line lines = true /\
    length lines = (2 * side_count uFlags)%nat.
Proof.
  destruct (painted_by_rect hdc rc uType uFlags) as (c & _ & Hp).
  exists (edge_retval uType uFlags),
         (RectEdge_outer rc uFlags c ++ RectEdge_inner rc uFlags c).
  split; [apply IntDrawRectEdge_retval | ]. split; [exact Hp | ]. split.
  - now rewrite forallb_app, RectEdge_outer_lines, RectEdge_inner_lines.
  - unfold RectEdge_outer, RectEdge_inner, side_count. cbv zeta.
    rewrite !length_app, !line_if_length.
    destruct (nz (uFlags .& BF_TOP)), (nz (uFlags .& BF_LEFT)),
             (nz (uFlags .& BF_BOTTOM)), (nz (uFlags .& BF_RIGHT)); reflexivity.
Qed.

(** ** The width of an edge *)

(** X4.  The width by which the rectangle shrinks is 2 when the style code
    has an inner and an outer bit, 0 when it has none of the four bits, and 1
    otherwise, whatever the palette the edge is drawn in. *)
Theorem edge_add_by_bevels (uType : UINT) :
  edge_add uType
  = Some (if has_inner uType && has_outer uType then 2
          else if uType .& (BDR_INNER .| BDR_OUTER) =? 0 then 0 else 1).
Proof.
  unfold has_inner, has_outer, edge_add, BDR_INNER, BDR_OUTER.
  change (12 .| 3) with 15.
  rewrite (land_low4 uType 12), (land_low4 uType 3) by lia.
  low4 uType; rewrite H; reflexivity.
Qed.

(** X5.  On the same rectangle, style code and flags, [IntDrawDiagEdge] and
    [IntDrawRectEdge] hand back the same rectangle: both shrink the sides
    named in the flags by the same width under [BF_ADJUST] and leave the
    rectangle alone without it. *)
Theorem diag_and_rect_same_rect (hdc1 hdc2 : DC) (rc : RECT) (uType uFlags : UINT) :
  exists add,
    edge_add uType = Some add /\
    rect_of (IntDrawDiagEdge rc uType uFlags hdc1)
    = Some (if nz (uFlags .& BF_ADJUST) then adjust_rect rc uFlags add else rc) /\
    rect_of (IntDrawRectEdge rc uType uFlags hdc2)
    = Some (if nz (uFlags .& BF_ADJUST) then adjust_rect rc uFlags add else rc).
Proof.
  destruct (IntDrawRectEdge_run hdc2 rc uType uFlags) as (c & add & _ & Hadd & Hrect).
  destruct (IntDrawDiagEdge_run hdc1 rc uType uFlags) as (add' & new & pc & bc & Hadd' & Hdiag).
  assert (add' = add) by congruence. subst add'.
  exists add. rewrite Hrect, Hdiag. auto.
Qed.

(** ** The diagonal renderer *)

Lemma land_low5 (u m : Z) : 0 <= m < 32 -> u .& m = (u .& 31) .& m.
Proof.
  intros Hm. rewrite <- Z.land_assoc. f_equal.
  rewrite Z.land_comm. change 31 with (Z.ones 5).
  rewrite Z.land_ones by lia. symmetry. apply Z.mod_small. simpl; lia.
Qed.

Lemma nz_true (z : Z) : nz z = true <-> z <> 0.
Proof.
  unfold nz. destruct (Z.eqb_spec z 0); simpl; split; congruence.
Qed.

(** The values of [u & 31] that have bit 4 set. *)
Lemma low5_diagonal_cases (u : Z) :
  nz (u .& BF_DIAGONAL) = true ->
  In (u .& 31) [16; 17; 18; 19; 20; 21; 22; 23; 24; 25; 26; 27; 28; 29; 30; 31].
Proof.
  intros H. unfold BF_DIAGONAL in H. rewrite (land_low5 u 16) in H by lia.
  assert (Hr : 0 <= u .& 31 < 32).
  { change 31 with (Z.ones 5). rewrite Z.land_ones by lia.
    apply Z.mod_pos_bound. reflexivity. }
  assert (Hlow : u .& 31 < 16 -> (u .& 31) .& 16 = 0).
  { intros Hlt. change 16 with (2 ^ 4).
    apply Z.bits_inj'. intros n Hn. rewrite Z.land_spec, Z.bits_0.
    destruct (Z.eq_dec n 4) as [-> | Hne].
    - rewrite (Z.bits_above_log2 (u .& 31) 4); [reflexivity | lia | ].
      destruct (Z.eq_dec (u .& 31) 0) as [E | E]; [rewrite E; simpl; lia | ].
      apply Z.log2_lt_pow2; simpl; lia.
    - rewrite (Z.pow2_bits_false 4 n) by lia. apply andb_false_r. }
  apply nz_true in H. simpl.
  assert (16 <= u .& 31) by (destruct (Z.lt_ge_cases (u .& 31) 16); [ tauto | lia ]).
  assert (u .& 31 = 16 \/ u .& 31 = 17 \/ u .& 31 = 18 \/ u .& 31 = 19 \/
          u .& 31 = 20 \/ u .& 31 = 21 \/ u .& 31 = 22 \/ u .& 31 = 23 \/
          u .& 31 = 24 \/ u .& 31 = 25 \/ u .& 31 = 26 \/ u .& 31 = 27 \/
          u .& 31 = 28 \/ u .& 31 = 29 \/ u .& 31 = 30 \/ u .& 31 = 31) by lia.
  intuition auto.
Qed.

(** Deciding the labels of a [switch] on a known value. *)
Ltac eval_cases :=
  repeat match goal with
         | |- context [is_case ?v ?l] =>
             let b := eval vm_compute in (is_case v l) in
             change (is_case v l) with b; cbv iota
         end.

(** Under [BF_DIAGONAL] the second [switch] always meets a label: it draws
    one line and writes the four points. *)
Lemma diag_inner_under_BF_DIAGONAL
      (rc : RECT) (spx spy epx epy add : Z) (uFlags : UINT) (hdc : DC) :
  nz (uFlags .& BF_DIAGONAL) = true ->
  exists P0 P1 P2 P3 q0 q1,
    diag_inner rc spx spy epx epy add uFlags hdc =
      Some (Some [P0; P1; P2; P3],
            mkDC (dc_pen hdc) (dc_brush hdc) (dc_pen_color hdc) (dc_brush_color hdc) q1
                 (dc_out hdc ++ [PLine (dc_pen hdc) (dc_pen_color hdc) q0 q1])).
Proof.
  intros Hd. destruct hdc as [pen0 brush0 pc0 bc0 pos0 out0].
  unfold diag_inner. change (BF_RECT .| BF_DIAGONAL) with 31. cbv zeta.
  pose proof (low5_diagonal_cases uFlags Hd) as H. simpl in H.
  repeat (destruct H as [H | H]; [ symmetry in H | ]); [ .. | contradiction ];
    rewrite H; eval_cases;
    cbv beta iota zeta delta
        [ret bind MoveToEx LineTo paint dc_pen dc_brush dc_pen_color dc_brush_color
         dc_pos dc_out];
    do 6 eexists; reflexivity.
Qed.

(** X6.  Called with [BF_DIAGONAL] in the flags, as [DrawEdge] calls it,
    [IntDrawDiagEdge] paints exactly two lines, the outer one then the inner
    one, and after them, when [BF_MIDDLE] is set and the call returns true,
    one polygon under [DC_PEN] and [DC_BRUSH], both of the face colour,
    whose four points have all been written. *)
Theorem IntDrawDiagEdge_under_BF_DIAGONAL
        (hdc : DC) (rc : RECT) (uType uFlags : UINT) :
  nz (uFlags .& BF_DIAGONAL) = true ->
  exists b InnerI OuterI s e s' e' P0 P1 P2 P3,
    let face :=
      GetSysColor (if nz (uFlags .& BF_MONO) then COLOR_WINDOW else COLOR_BTNFACE) in
    retval_of (DrawEdge rc uType uFlags hdc) = Some b /\
    DiagEdgeColors uType uFlags = Some (InnerI, OuterI) /\
    painted_by hdc (DrawEdge rc uType uFlags hdc)
    = Some ([PLine (edge_pen OuterI) (GetSysColor OuterI) s e;
             PLine (edge_pen InnerI) (GetSysColor InnerI) s' e']
            ++ (if nz (uFlags .& BF_MIDDLE) && b
                then [PPolygon DC_PEN face DC_BRUSH face (Some [P0; P1; P2; P3])]
                else [])).
Proof.
  intros Hd. unfold DrawEdge. rewrite Hd.
  destruct (DiagEdgeColors_total uType uFlags) as [[InnerI OuterI] Hc].
  destruct (edge_add_total uType) as [add [Hadd _]].
  exists (edge_retval uType uFlags), InnerI, OuterI.
  rewrite IntDrawDiagEdge_retval.
  destruct hdc as [pen0 brush0 pc0 bc0 [px py] out0].
  unfold painted_by, IntDrawDiagEdge.
  destruct (diag_endpoints rc _ uFlags) as [[[spx spy] epx] epy].
  cbv beta zeta delta [bind lift].
  rewrite Hc, Hadd.
  cbv beta iota zeta delta
      [ret bind SelectPen MoveToEx LineTo SetDCPenColor paint
       dc_pen dc_brush dc_pen_color dc_brush_color dc_pos dc_out x y fst snd].
  match goal with
  | |- context [diag_inner ?a ?b ?c ?d ?e ?f ?g ?h] =>
      destruct (diag_inner_under_BF_DIAGONAL a b c d e f g h Hd)
        as (P0 & P1 & P2 & P3 & q0 & q1 & Hin);
      rewrite Hin
  end.
  exists (mkPOINT spx spy), (mkPOINT epx epy), q0, q1, P0, P1, P2, P3.
  destruct (nz (uFlags .& BF_MIDDLE) && edge_retval uType uFlags);
    cbv beta iota zeta delta
        [when ret bind SelectPen SelectBrush SetDCPenColor SetDCBrushColor Polygon MoveToEx
         paint dc_pen dc_brush dc_pen_color dc_brush_color dc_pos dc_out x y
         option_map fst snd];
    repeat rewrite <- app_assoc; rewrite skipn_length_app;
    repeat split; reflexivity.
Qed.

Lemma IntDrawDiagEdge_under_BF_DIAGONAL_witness :
  exists b InnerI OuterI s e s' e' P0 P1 P2 P3,
    let uFlags := BF_DIAGONAL_ENDTOPRIGHT .| BF_MIDDLE in
    let face :=
      GetSysColor (if nz (uFlags .& BF_MONO) then COLOR_WINDOW else COLOR_BTNFACE) in
    retval_of (DrawEdge sample_rect EDGE_SUNKEN uFlags sample_dc) = Some b /\
    DiagEdgeColors EDGE_SUNKEN uFlags = Some (InnerI, OuterI) /\
    painted_by sample_dc (DrawEdge sample_rect EDGE_SUNKEN uFlags sample_dc)
    = Some ([PLine (edge_pen OuterI) (GetSysColor OuterI) s e;
             PLine (edge_pen InnerI) (GetSysColor InnerI) s' e']
            ++ (if nz (uFlags .& BF_MIDDLE) && b
                then [PPolygon DC_PEN face DC_BRUSH face (Some [P0; P1; P2; P3])]
                else [])).
Proof.
  apply (IntDrawDiagEdge_under_BF_DIAGONAL sample_dc sample_rect EDGE_SUNKEN
           (BF_DIAGONAL_ENDTOPRIGHT .| BF_MIDDLE)).
  reflexivity.
Defined.

Lemma LONG_wrap_range (z : Z) : - 2 ^ 31 <= LONG_wrap z < 2 ^ 31.
Proof.
  unfold LONG_wrap.
  pose proof (Z.mod_pos_bound (z + 2 ^ 31) (2 ^ 32) eq_refl). lia.
Qed.

Lemma LONG_wrap_idem (z : Z) : LONG_wrap (LONG_wrap z) = LONG_wrap z.
Proof. apply LONG_wrap_small, LONG_wrap_range. Qed.

Lemma lsub_wrapped (a b : Z) : LONG_wrap (a -! b) = a -! b.
Proof. apply LONG_wrap_idem. Qed.

(** The first [switch] always meets a label, and the two points it yields
    are [SmallDiam] apart along both axes. *)
Lemma diag_endpoints_extent (rc : RECT) (SmallDiam : Z) (uFlags : UINT) :
  LONG_wrap SmallDiam = SmallDiam ->
  exists spx spy epx epy,
    diag_endpoints rc SmallDiam uFlags = (spx, spy, epx, epy) /\
    (spx -! epx = SmallDiam \/ epx -! spx = SmallDiam) /\
    (spy -! epy = SmallDiam \/ epy -! spy = SmallDiam).
Proof.
  intros Hw. unfold diag_endpoints. change BF_RECT with 15. cbv zeta.
  low4 uFlags; rewrite H; eval_cases;
    do 4 eexists; (split; [reflexivity | ]);
    rewrite ?ladd_lsub_same, ?lsub_lsub_same, Hw; auto.
Qed.

Lemma IntDrawDiagEdge_outer_line (hdc : DC) (rc : RECT) (uType uFlags : UINT) :
  exists InnerI OuterI rest,
    let Width := right rc -! left rc in
    let Height := bottom rc -! top rc in
    let SmallDiam := if Width >? Height then Height else Width in
    DiagEdgeColors uType uFlags = Some (InnerI, OuterI) /\
    painted_by hdc (IntDrawDiagEdge rc uType uFlags hdc)
    = Some (match diag_endpoints rc SmallDiam uFlags with
            | (spx, spy, epx, epy) =>
                PLine (edge_pen OuterI) (GetSysColor OuterI)
                      (mkPOINT spx spy) (mkPOINT epx epy)
            end :: rest).
Proof.
  destruct (DiagEdgeColors_total uType uFlags) as [[InnerI OuterI] Hc].
  destruct (edge_add_total uType) as [add [Hadd _]].
  exists InnerI, OuterI.
  destruct hdc as [pen0 brush0 pc0 bc0 [px py] out0].
  unfold painted_by, IntDrawDiagEdge. cbv zeta.
  destruct (diag_endpoints rc _ uFlags) as [[[spx spy] epx] epy].
  cbv beta zeta delta [bind lift].
  rewrite Hc, Hadd.
  cbv beta iota zeta delta
      [ret bind SelectPen MoveToEx LineTo SetDCPenColor paint
       dc_pen dc_brush dc_pen_color dc_brush_color dc_pos dc_out x y fst snd].
  match goal with
  | |- context [diag_inner ?a ?b ?c ?d ?e ?f ?g ?h] =>
      destruct (diag_inner_run a b c d e f g h) as (Points & inner & pos' & Hin);
      rewrite Hin
  end.
  destruct (nz (uFlags .& BF_MIDDLE) && edge_retval uType uFlags);
    cbv beta iota zeta delta
        [when ret bind SelectPen SelectBrush SetDCPenColor SetDCBrushColor Polygon MoveToEx
         paint dc_pen dc_brush dc_pen_color dc_brush_color dc_pos dc_out x y
         option_map fst snd];
    repeat rewrite <- app_assoc; rewrite skipn_length_app;
    eexists; split; reflexivity.
Qed.

(** X7.  Whatever the flags, the first primitive [IntDrawDiagEdge] paints is
    the outer line, and its two end points are, in 32-bit arithmetic, exactly
    [SmallDiam] apart horizontally and [SmallDiam] apart vertically, where
    [SmallDiam] is the smaller of the width and the height of the rectangle:
    the line is a diagonal of the largest square that fits. *)
Theorem diag_outer_line_extent (hdc : DC) (rc : RECT) (uType uFlags : UINT) :
  exists pen color s e rest,
    let Width := right rc -! left rc in
    let Height := bottom rc -! top rc in
    let SmallDiam := if Width >? Height then Height else Width in
    painted_by hdc (IntDrawDiagEdge rc uType uFlags hdc)
    = Some (PLine pen color s e :: rest) /\
    (x s -! x e = SmallDiam \/ x e -! x s = SmallDiam) /\
    (y s -! y e = SmallDiam \/ y e -! y s = SmallDiam).
Proof.
  destruct (IntDrawDiagEdge_outer_line hdc rc uType uFlags)
    as (InnerI & OuterI & rest & _ & Hp).
  cbv zeta in Hp |- *.
  set (SmallDiam := if (right rc -! left rc) >? (bottom rc -! top rc)
                    then bottom rc -! top rc else right rc -! left rc) in *.
  assert (Hw : LONG_wrap SmallDiam = SmallDiam).
  { unfold SmallDiam. destruct (_ >? _); apply lsub_wrapped. }
  destruct (diag_endpoints_extent rc SmallDiam uFlags Hw)
    as (spx & spy & epx & epy & He & Hx & Hy).
  rewrite He in Hp.
  exists (edge_pen OuterI), (GetSysColor OuterI), (mkPOINT spx spy), (mkPOINT epx epy), rest.
  auto.
Qed.

(** ** The pens of [IntDrawRectEdge] *)

Lemma lines_with_app (pen : HPEN) (l1 l2 : list PRIM) :
  lines_with pen l1 -> lines_with pen l2 -> lines_with pen (l1 ++ l2).
Proof. unfold lines_with. intros H1 H2. apply Forall_app. now split. Qed.

Lemma lines_with_line_if (b : bool) (pen : HPEN) (I : Z) (x0 y0 x1 y1 : LONG) :
  lines_with pen (line_if b pen I x0 y0 x1 y1).
Proof. destruct b; repeat constructor. Qed.

(** When the four colours select the same pen, every line is drawn with it. *)
Lemma RectEdge_prims_lines_with
      (pen : HPEN) (rc : RECT) (uFlags : UINT) (c : EDGECOLORS) (retval : BOOL) :
  edge_pen (LTInnerI c) = pen -> edge_pen (LTOuterI c) = pen ->
  edge_pen (RBInnerI c) = pen -> edge_pen (RBOuterI c) = pen ->
  lines_with pen (RectEdge_prims rc uFlags c retval).
Proof.
  intros H1 H2 H3 H4.
  unfold RectEdge_prims, RectEdge_fill, RectEdge_outer, RectEdge_inner. cbv zeta.
  rewrite H1, H2, H3, H4.
  repeat apply lines_with_app; try apply lines_with_line_if.
  destruct (_ && _); repeat constructor.
Qed.

(** X8.  For a full edge ([EDGE_RAISED], [EDGE_SUNKEN], [EDGE_ETCHED],
    [EDGE_BUMP]) none of the four colours is [-1], in the normal, the soft,
    the flat and the mono palette alike, so every line [IntDrawRectEdge]
    paints is drawn with [DC_PEN]. *)
Theorem full_edge_lines_drawn (hdc : DC) (rc : RECT) (uType uFlags : UINT) :
  both_bevels uType = true ->
  exists c new,
    RectEdgeColors uType uFlags = Some c /\
    LTInnerI c <> -1 /\ LTOuterI c <> -1 /\ RBInnerI c <> -1 /\ RBOuterI c <> -1 /\
    painted_by hdc (IntDrawRectEdge rc uType uFlags hdc) = Some new /\
    lines_with DC_PEN new.
Proof.
  intros Hb. unfold both_bevels, BDR_OUTER, BDR_INNER in Hb.
  rewrite (land_low4 uType 3), (land_low4 uType 12) in Hb by lia.
  destruct (painted_by_rect hdc rc uType uFlags) as (c & Hc & Hp).
  exists c, (RectEdge_prims rc uFlags c (edge_retval uType uFlags)).
  assert (Hcol : LTInnerI c <> -1 /\ LTOuterI c <> -1 /\
                 RBInnerI c <> -1 /\ RBOuterI c <> -1).
  { unfold RectEdgeColors in Hc. change (BDR_INNER .| BDR_OUTER) with 15 in Hc.
    destruct (nz (uFlags .& BF_MONO)); [ | destruct (nz (uFlags .& BF_FLAT));
      [ | destruct (nz (uFlags .& BF_SOFT)) ] ];
      low4 uType; rewrite H in Hb, Hc; try discriminate Hb;
      vm_compute in Hc; injection Hc as <-; repeat split; discriminate. }
  destruct Hcol as (H1 & H2 & H3 & H4).
  repeat (split; [assumption | ]).
  apply RectEdge_prims_lines_with; unfold edge_pen;
    match goal with
    | |- (if negb (?v =? -1) then _ else _) = _ =>
        destruct (Z.eqb_spec v (-1)); [contradiction | reflexivity]
    end.
Qed.

Lemma full_edge_lines_drawn_witness :
  exists c new,
    RectEdgeColors EDGE_ETCHED (BF_RECT .| BF_SOFT) = Some c /\
    LTInnerI c <> -1 /\ LTOuterI c <> -1 /\ RBInnerI c <> -1 /\ RBOuterI c <> -1 /\
    painted_by sample_dc
      (IntDrawRectEdge sample_rect EDGE_ETCHED (BF_RECT .| BF_SOFT) sample_dc) = Some new /\
    lines_with DC_PEN new.
Proof.
  apply (full_edge_lines_drawn sample_dc sample_rect EDGE_ETCHED (BF_RECT .| BF_SOFT)).
  reflexivity.
Defined.

(** X9.  A style code with none of the four bevel bits is valid and has
    width 0: [IntDrawRectEdge] returns true, draws every line with the stock
    [NULL_PEN], and hands a rectangle of 32-bit coordinates back unchanged,
    with or without [BF_ADJUST]. *)
Theorem no_bevel_draws_with_null_pen (hdc : DC) (rc : RECT) (uType uFlags : UINT) :
  uType .& (BDR_INNER .| BDR_OUTER) = 0 ->
  RECT_in_range rc ->
  retval_of (IntDrawRectEdge rc uType uFlags hdc) = Some true /\
  rect_of (IntDrawRectEdge rc uType uFlags hdc) = Some rc /\
  exists new,
    painted_by hdc (IntDrawRectEdge rc uType uFlags hdc) = Some new /\
    lines_with NULL_PEN new.
Proof.
  change (BDR_INNER .| BDR_OUTER) with 15. intros H0 (Hl & Ht & Hr & Hb).
  rewrite (IntDrawRectEdge_low4 rc uType uFlags), H0.
  destruct (IntDrawRectEdge_run hdc rc 0 uFlags) as (c & add & Hc & Hadd & Hrun).
  destruct (painted_by_rect hdc rc 0 uFlags) as (c' & Hc' & Hp).
  assert (c' = c) by congruence. subst c'.
  assert (Hcol : c = mkEDGECOLORS (-1) (-1) (-1) (-1)).
  { unfold RectEdgeColors in Hc.
    destruct (nz (uFlags .& BF_MONO)); [ | destruct (nz (uFlags .& BF_FLAT));
      [ | destruct (nz (uFlags .& BF_SOFT)) ] ];
      vm_compute in Hc; congruence. }
  vm_compute in Hadd. injection Hadd as <-.
  rewrite Hrun. cbn [retval_of rect_of option_map fst snd].
  split; [reflexivity | ]. split.
  - f_equal. destruct (nz (uFlags .& BF_ADJUST)); [ | reflexivity].
    destruct rc as [l t r b]. unfold adjust_rect, ladd, lsub. cbn [left top right bottom] in *.
    rewrite !Z.add_0_r, !Z.sub_0_r, !LONG_wrap_small by assumption.
    now destruct (nz (uFlags .& BF_LEFT)), (nz (uFlags .& BF_RIGHT)),
                 (nz (uFlags .& BF_TOP)), (nz (uFlags .& BF_BOTTOM)).
  - rewrite <- Hrun, Hp. eexists. split; [reflexivity | ].
    apply RectEdge_prims_lines_with; subst c; reflexivity.
Qed.

Lemma no_bevel_draws_with_null_pen_witness :
  retval_of (IntDrawRectEdge sample_rect 16 (BF_RECT .| BF_ADJUST) sample_dc) = Some true /\
  rect_of (IntDrawRectEdge sample_rect 16 (BF_RECT .| BF_ADJUST) sample_dc)
    = Some sample_rect /\
  exists new,
    painted_by sample_dc (IntDrawRectEdge sample_rect 16 (BF_RECT .| BF_ADJUST) sample_dc)
      = Some new /\
    lines_with NULL_PEN new.
Proof.
  apply (no_bevel_draws_with_null_pen sample_dc sample_rect 16 (BF_RECT .| BF_ADJUST)).
  - reflexivity.
  - unfold RECT_in_range, sample_rect. simpl. lia.
Defined.

(** ** Where [IntDrawRectEdge] paints *)

Lemma Forall_line_if (P : PRIM -> Prop) (b : bool) (pen : HPEN) (I : Z)
      (x0 y0 x1 y1 : LONG) :
  (b = true -> P (PLine pen (GetSysColor I) (mkPOINT x0 y0) (mkPOINT x1 y1))) ->
  Forall P (line_if b pen I x0 y0 x1 y1).
Proof. destruct b; intros H; constructor; auto. Qed.

Lemma Forall_app_intro {A} (P : A -> Prop) (l1 l2 : list A) :
  Forall P l1 -> Forall P l2 -> Forall P (l1 ++ l2).
Proof. intros H1 H2. apply Forall_app. now split. Qed.

(** X10.  On a rectangle of 32-bit coordinates at least two pixels wide and
    two pixels high, every line [IntDrawRectEdge] paints starts and ends in
    the closed rectangle, and the fill, if any, is the rectangle itself: the
    call paints nothing outside the rectangle it is given. *)
Theorem IntDrawRectEdge_paints_inside (hdc : DC) (rc : RECT) (uType uFlags : UINT) :
  RECT_in_range rc ->
  left rc + 2 <= right rc ->
  top rc + 2 <= bottom rc ->
  exists new,
    painted_by hdc (IntDrawRectEdge rc uType uFlags hdc) = Some new /\
    Forall (prim_in rc) new.
Proof.
  intros (Hl & Ht & Hr & Hb) Hw Hh.
  destruct (painted_by_rect hdc rc uType uFlags) as (c & _ & Hp).
  eexists. split; [exact Hp | ].
  unfold RectEdge_prims, RectEdge_fill, RectEdge_outer, RectEdge_inner. cbv zeta.
  assert (E31 : 2 ^ 31 = 2147483648) by reflexivity.
  repeat apply Forall_app_intro;
    try (apply Forall_line_if; intros _;
         unfold prim_in, point_in, ladd, lsub; cbn [x y];
         repeat match goal with
                | |- context [if ?t then 1 else 0] => destruct t
                end;
         rewrite ?LONG_wrap_small by lia; lia).
  destruct (_ && _); repeat constructor.
Qed.

Lemma IntDrawRectEdge_paints_inside_witness :
  exists new,
    painted_by sample_dc
      (IntDrawRectEdge sample_rect EDGE_RAISED (BF_RECT .| BF_MIDDLE) sample_dc) = Some new /\
    Forall (prim_in sample_rect) new.
Proof.
  apply (IntDrawRectEdge_paints_inside sample_dc sample_rect EDGE_RAISED
           (BF_RECT .| BF_MIDDLE)).
  - unfold RECT_in_range, sample_rect. simpl. lia.
  - simpl. lia.
  - simpl. lia.
Defined.


(** * [UITOOLS_MakeSquareRect] *)

(** The square made has the side returned, along both axes. *)
Lemma MakeSquareRect_extents (src : RECT) :
  let Width := right src -! left src in
  let Height := bottom src -! top src in
  let SmallDiam := fst (UITOOLS_MakeSquareRect src) in
  let dst := snd (UITOOLS_MakeSquareRect src) in
  SmallDiam = Z.min Width Height /\
  right dst -! left dst = SmallDiam /\
  bottom dst -! top dst = SmallDiam.
Proof.
  cbv zeta. unfold UITOOLS_MakeSquareRect. cbv zeta. cbn [fst snd].
  set (Width := right src -! left src). set (Height := bottom src -! top src).
  assert (HW : LONG_wrap Width = Width) by apply lsub_wrapped.
  assert (HH : LONG_wrap Height = Height) by apply lsub_wrapped.
  rewrite Z.gtb_ltb.
  destruct (Z.ltb_spec Width Height) as [Hlt | Hge];
    [ | destruct (Z.ltb_spec Height Width) as [Hgt | Hle] ].
  - destruct (Z.ltb_spec Height Width) as [Hgt | _]; [lia | ].
    cbn [left top right bottom]. rewrite ladd_lsub_same, HW.
    repeat split; try reflexivity; lia.
  - cbn [left top right bottom]. rewrite ladd_lsub_same, HH.
    repeat split; try reflexivity; lia.
  - repeat split; try reflexivity; fold Width Height; lia.
Qed.

(** X11.  [UITOOLS_MakeSquareRect] returns the smaller of the width and the
    height of the source rectangle, and the rectangle it makes is a square of
    that side: in 32-bit arithmetic its width and its height are both the
    value returned. *)
Theorem MakeSquareRect_square (src : RECT) :
  let Width := right src -! left src in
  let Height := bottom src -! top src in
  let SmallDiam := fst (UITOOLS_MakeSquareRect src) in
  let dst := snd (UITOOLS_MakeSquareRect src) in
  SmallDiam = Z.min Width Height /\
  right dst -! left dst = SmallDiam /\
  bottom dst -! top dst = SmallDiam.
Proof. exact (MakeSquareRect_extents src). Qed.

(** X12.  Making a square out of the square [UITOOLS_MakeSquareRect] has made
    changes nothing: the second call returns the same side and the same
    rectangle. *)
Theorem MakeSquareRect_idempotent (src : RECT) :
  UITOOLS_MakeSquareRect (snd (UITOOLS_MakeSquareRect src)) = UITOOLS_MakeSquareRect src.
Proof.
  pose proof (MakeSquareRect_extents src) as (_ & Hw & Hh). cbv zeta in Hw, Hh.
  destruct (UITOOLS_MakeSquareRect src) as [SmallDiam dst] eqn:E.
  cbn [fst snd] in *.
  unfold UITOOLS_MakeSquareRect at 1. cbv zeta.
  rewrite Hw, Hh, Z.gtb_ltb, Z.ltb_irrefl. reflexivity.
Qed.

(** X13.  When the coordinates of the source are within 2^29 of the
    origin, the square lies in the source rectangle and is centred
    in it: along each axis the margin before the square is at most the
    margin after it, and they differ by at most one pixel. *)
Theorem MakeSquareRect_centred (src : RECT) :
  - 2 ^ 29 <= left src < 2 ^ 29 -> - 2 ^ 29 <= top src < 2 ^ 29 ->
  - 2 ^ 29 <= right src < 2 ^ 29 -> - 2 ^ 29 <= bottom src < 2 ^ 29 ->
  let dst := snd (UITOOLS_MakeSquareRect src) in
  (0 <= left dst - left src <= right src - right dst /\ right src - right dst <= left dst - left src + 1) /\
  (0 <= top dst - top src <= bottom src - bottom dst /\ bottom src - bottom dst <= top dst - top src + 1).
Proof.
  intros Hl Ht Hr Hb. cbv zeta. unfold UITOOLS_MakeSquareRect. cbv zeta. cbn [snd].
  assert (E29 : 2 ^ 29 = 536870912) by reflexivity.
  assert (E31 : 2 ^ 31 = 2147483648) by reflexivity.
  unfold ladd, lsub.
  rewrite (LONG_wrap_small (right src - left src)) by lia.
  rewrite (LONG_wrap_small (bottom src - top src)) by lia.
  remember (right src - left src) as W eqn:EW.
  remember (bottom src - top src) as H eqn:EH.
  rewrite Z.gtb_ltb.
  destruct (Z.ltb_spec W H) as [Hlt | Hge]; destruct (Z.ltb_spec H W) as [Hgt | Hle];
    try lia; cbn [left top right bottom].
  - rewrite (LONG_wrap_small (H - W)) by lia.
    pose proof (Z.quot_rem' (H - W) 2) as Hq.
    pose proof (Z.rem_bound_pos (H - W) 2 ltac:(lia) ltac:(lia)) as Hrem.
    rewrite (LONG_wrap_small (top src + (H - W) ÷ 2)) by lia.
    rewrite (LONG_wrap_small (top src + (H - W) ÷ 2 + W)) by lia.
    lia.
  - rewrite (LONG_wrap_small (W - H)) by lia.
    pose proof (Z.quot_rem' (W - H) 2) as Hq.
    pose proof (Z.rem_bound_pos (W - H) 2 ltac:(lia) ltac:(lia)) as Hrem.
    rewrite (LONG_wrap_small (left src + (W - H) ÷ 2)) by lia.
    rewrite (LONG_wrap_small (left src + (W - H) ÷ 2 + H)) by lia.
    lia.
Qed.

Lemma MakeSquareRect_centred_witness :
  let src := mkRECT 0 0 17 10 in
  let dst := snd (UITOOLS_MakeSquareRect src) in
  dst = mkRECT 3 0 13 10 /\
  (0 <= left dst - left src <= right src - right dst /\ right src - right dst <= left dst - left src + 1) /\
  (0 <= top dst - top src <= bottom src - bottom dst /\ bottom src - bottom dst <= top dst - top src + 1).
Proof.
  split; [reflexivity | ].
  apply (MakeSquareRect_centred (mkRECT 0 0 17 10)); simpl; lia.
Defined.

(** * [FrameRect] *)

Lemma SelectObject_object (h : HGDIOBJ) (hDC : BLTDC) :
  h <> 0 -> In h (bdc_objects hDC) ->
  SelectObject h hDC = (bdc_brush hDC, mkBLTDC h (bdc_objects hDC) (bdc_blts hDC)).
Proof.
  intros Hnz Hin. unfold SelectObject.
  destruct (Z.eqb_spec h 0) as [E | _]; [contradiction | ].
  assert (Hex : existsb (Z.eqb h) (bdc_objects hDC) = true).
  { apply existsb_exists. exists h. split; [assumption | apply Z.eqb_refl]. }
  now rewrite Hex.
Qed.

Lemma SelectObject_refused (h : HGDIOBJ) (hDC : BLTDC) :
  ~ (h <> 0 /\ In h (bdc_objects hDC)) -> SelectObject h hDC = (0, hDC).
Proof.
  intros Hno. unfold SelectObject.
  destruct (Z.eqb_spec h 0) as [E | Hnz]; [reflexivity | ].
  destruct (existsb (Z.eqb h) (bdc_objects hDC)) eqn:Hex; [ | reflexivity].
  exfalso. apply Hno. split; [assumption | ].
  apply existsb_exists in Hex. destruct Hex as (h' & Hin & Heq).
  apply Z.eqb_eq in Heq. now subst h'.
Qed.

(** X14.  On a device context that has a brush selected, [FrameRect] returns
    a non-zero value exactly when the rectangle is not empty
    ([left < right] and [top < bottom]) and the brush handle is the handle of
    an object; when it returns 0 it has made no [PatBlt] call and has left
    the device context as it was. *)
Theorem FrameRect_result (lprc : RECT) (hbr : HGDIOBJ) (hDC : BLTDC) :
  bdc_brush hDC <> 0 ->
  (fst (FrameRect lprc hbr hDC) <> 0 <->
   left lprc < right lprc /\ top lprc < bottom lprc /\
   hbr <> 0 /\ In hbr (bdc_objects hDC)) /\
  (fst (FrameRect lprc hbr hDC) = 0 -> snd (FrameRect lprc hbr hDC) = hDC).
Proof.
  intros Hbrush. unfold FrameRect. cbv zeta.
  destruct (Z.leb_spec (right lprc) (left lprc)) as [Hw | Hw];
    [ cbn [orb fst snd]; split; [split; [congruence | lia] | reflexivity] | ].
  destruct (Z.leb_spec (bottom lprc) (top lprc)) as [Hh | Hh];
    [ cbn [orb fst snd]; split; [split; [congruence | lia] | reflexivity] | ].
  cbn [orb].
  destruct (Z.eq_dec hbr 0) as [E0 | Hnz];
    [ rewrite SelectObject_refused by tauto; cbn [fst snd Z.eqb];
      split; [split; [congruence | tauto] | reflexivity] | ].
  destruct (in_dec Z.eq_dec hbr (bdc_objects hDC)) as [Hin | Hnin].
  - rewrite SelectObject_object by assumption.
    destruct (Z.eqb_spec (bdc_brush hDC) 0) as [E | _]; [contradiction | ].
    cbn [fst snd]. split; [split; [tauto | discriminate] | discriminate].
  - rewrite SelectObject_refused by tauto. cbn [fst snd Z.eqb].
    split; [split; [congruence | tauto] | reflexivity].
Qed.

Lemma FrameRect_result_witness :
  (fst (FrameRect sample_rect 12 sample_bltdc) <> 0 <->
   left sample_rect < right sample_rect /\ top sample_rect < bottom sample_rect /\
   12 <> 0 /\ In 12 (bdc_objects sample_bltdc)) /\
  (fst (FrameRect sample_rect 12 sample_bltdc) = 0 ->
   snd (FrameRect sample_rect 12 sample_bltdc) = sample_bltdc).
Proof.
  apply (FrameRect_result sample_rect 12 sample_bltdc). discriminate.
Defined.

(** X15.  On a rectangle that is not empty, with coordinates within 2^30 of
    the origin, a brush that is an object and a device context whose own
    brush is an object, [FrameRect] returns 1, makes exactly four [PatBlt]
    calls with [PATCOPY] under the brush it was given, puts the brush of
    the device context back, and the four calls together paint exactly the
    pixels of the rectangle that lie on its border, one pixel thick. *)
Theorem FrameRect_paints_border (lprc : RECT) (hbr : HGDIOBJ) (hDC : BLTDC) :
  left lprc < right lprc -> top lprc < bottom lprc ->
  - 2 ^ 30 <= left lprc -> right lprc < 2 ^ 30 ->
  - 2 ^ 30 <= top lprc -> bottom lprc < 2 ^ 30 ->
  hbr <> 0 -> In hbr (bdc_objects hDC) ->
  bdc_brush hDC <> 0 -> In (bdc_brush hDC) (bdc_objects hDC) ->
  exists new,
    FrameRect lprc hbr hDC
    = (1, mkBLTDC (bdc_brush hDC) (bdc_objects hDC) (bdc_blts hDC ++ new)) /\
    length new = 4%nat /\
    Forall (fun b => blt_rop b = PATCOPY /\ blt_brush b = hbr) new /\
    forall px py,
      Exists (fun b => blt_covers b px py) new <->
      (left lprc <= px < right lprc /\ top lprc <= py < bottom lprc /\
       (px = left lprc \/ px = right lprc - 1 \/ py = top lprc \/ py = bottom lprc - 1)).
Proof.
  intros Hw Hh Hl Hr Ht Hb Hnz Hin Hbnz Hbin.
  assert (E30 : 2 ^ 30 = 1073741824) by reflexivity.
  assert (E31 : 2 ^ 31 = 2147483648) by reflexivity.
  unfold FrameRect. cbv zeta.
  destruct (Z.leb_spec (right lprc) (left lprc)) as [Hw' | _]; [lia | ].
  destruct (Z.leb_spec (bottom lprc) (top lprc)) as [Hh' | _]; [lia | ].
  cbn [orb]. rewrite SelectObject_object by assumption.
  destruct (Z.eqb_spec (bdc_brush hDC) 0) as [E | _]; [contradiction | ].
  unfold PatBlt. cbn [bdc_brush bdc_objects bdc_blts].
  rewrite SelectObject_object by assumption.
  cbn [snd bdc_brush bdc_objects bdc_blts].
  repeat rewrite <- app_assoc. cbn [app].
  eexists. split; [reflexivity | ]. split; [reflexivity | ]. split.
  - repeat constructor.
  - intros px py. rewrite !Exists_cons, Exists_nil.
    unfold blt_covers, lsub. cbn [blt_x blt_y blt_w blt_h].
    rewrite !LONG_wrap_small by lia. lia.
Qed.

Lemma FrameRect_paints_border_witness :
  exists new,
    FrameRect sample_rect 12 sample_bltdc
    = (1, mkBLTDC (bdc_brush sample_bltdc) (bdc_objects sample_bltdc)
                  (bdc_blts sample_bltdc ++ new)) /\
    length new = 4%nat /\
    Forall (fun b => blt_rop b = PATCOPY /\ blt_brush b = 12) new /\
    forall px py,
      Exists (fun b => blt_covers b px py) new <->
      (left sample_rect <= px < right sample_rect /\
       top sample_rect <= py < bottom sample_rect /\
       (px = left sample_rect \/ px = right sample_rect - 1 \/
        py = top sample_rect \/ py = bottom sample_rect - 1)).
Proof.
  apply (FrameRect_paints_border sample_rect 12 sample_bltdc);
    simpl; try lia; try discriminate; auto.
Defined.
